(** * afra.methods.fit : the likelihood / least-squares objective and its solvers

    A shallow embedding of [src/afra/methods/fit.py] (classes [fit], [gaussfit]
    and [hlfit]).  Scalars are IEEE-754 binary64 numbers (numpy's [float64]),
    dictionaries are [gmap]s keyed by strings, sets are [gset]s, Python
    exceptions are values of an error type, and the mutable objects (the fit
    itself and its two model adapters) are threaded through a state monad
    whose state survives a raised exception. *)

From Stdlib Require Import ZArith Floats.
From stdpp Require Import gmap strings list sorting.

#[local] Set Warnings "-clear-no-such-hyp".

(** ** numpy scalars *)

Module Np.

(** [np.inf] *)
Definition inf : float := infinity.

(** The largest finite binary64 number, [numpy.finfo(float64).max]. *)
Definition float_max : float := 0x1.fffffffffffffp+1023%float.

(** [np.isnan] on a scalar. *)
Definition isnan (x : float) : bool := is_nan x.

(** [np.nan_to_num] with its default arguments: NaN becomes [0.0], the
    infinities become the finite extremes of the type. *)
Definition nan_to_num (x : float) : float :=
  if is_nan x then 0%float
  else if (x =? infinity)%float then float_max
  else if (x =? neg_infinity)%float then (- float_max)%float
  else x.

(** [np.isnan(v).any()] on a vector. *)
Definition any_isnan (v : list float) : bool := existsb isnan v.

(** [np.any(cube > c)] and [np.any(cube < c)]. *)
Definition any_gt (v : list float) (c : float) : bool :=
  existsb (fun x => (c <? x)%float) v.
Definition any_lt (v : list float) (c : float) : bool :=
  existsb (fun x => (x <? c)%float) v.

End Np.

(** ** Python exceptions and fallible results *)

Inductive exn : Type :=
| AssertionError
| ValueError (msg : string)
| KeyError (key : string)
| IndexError
| AttributeError
| LibraryError (msg : string).

Inductive result (A : Type) : Type :=
| Ok (a : A)
| Raise (e : exn).
Arguments Ok {A} a.
Arguments Raise {A} e.

#[global] Instance result_ret : MRet result := λ A a, Ok a.
#[global] Instance result_bind : MBind result := λ A B f r,
  match r with Ok a => f a | Raise e => Raise e end.
#[global] Instance result_fmap : FMap result := λ A B f r,
  match r with Ok a => Ok (f a) | Raise e => Raise e end.

Definition is_Ok {A} (r : result A) : Prop := ∃ a, r = Ok a.

(** [d[k]] on a dictionary and [l[i]] on a sequence. *)
Definition getitem {V} (d : gmap string V) (k : string) : result V :=
  match d !! k with Some v => Ok v | None => Raise (KeyError k) end.
Definition index {A} (l : list A) (i : nat) : result A :=
  match l !! i with Some x => Ok x | None => Raise IndexError end.

(** ** numpy arrays *)

(** The element types of the arrays in the file. *)
Inductive np_dtype : Type := float64 | float32.

(** An n-dimensional array: its [shape] tuple, its entries in row-major
    order and its [dtype]. *)
Record ndarray : Type :=
  NdArray { shape : list nat; flat : list float; dtype : np_dtype }.

Definition ndim (a : ndarray) : nat := length (shape a).
Definition isnan_any (a : ndarray) : bool := Np.any_isnan (flat a).

(** [np.zeros_like(a, dtype=dt)] *)
Definition zeros_like (a : ndarray) (dt : np_dtype) : ndarray :=
  NdArray (shape a) (replicate (length (flat a)) 0%float) dt.

(** A two-dimensional array (chain or sample matrix) kept as its rows. *)
Record array2 : Type := Array2 { ncols : nat; rows : list (list float) }.

(** [a[:,i] = f(a[:,i])] for an elementwise [f]; the column must exist. *)
Definition column_update (i : nat) (f : float → float) (a : array2) : result array2 :=
  if decide (i < ncols a) then Ok (Array2 (ncols a) (alter f i <$> rows a))
  else Raise IndexError.

(** [v[i] = f(v[i])] on a vector. *)
Definition item_update (i : nat) (f : float → float) (v : list float) : result (list float) :=
  if decide (i < length v) then Ok (alter f i v) else Raise IndexError.

(** ** Sorting parameter names

    [sorted(names)] orders Python strings by code point, which on their UTF-8
    bytes is the lexicographic order of [String.leb]. *)

Definition sorted (names : gset string) : list string :=
  merge_sort String.le (elements names).

(** ** Collaborators outside the file *)

(** The model adapter contract of [fgmodel] and [bgmodel]: a parameter
    dictionary, a range dictionary, a blacklist, the mutator [reset] and the
    producer [bandpower]. *)
Class ModelAdapter (Mdl : Type) : Type := {
  params : Mdl → gmap string float;
  paramrange : Mdl → gmap string (float * float);
  blacklist : Mdl → list string;
  reset : Mdl → gmap string float → Mdl;
  bandpower : Mdl → ndarray;
}.

(** [afra.tools.aux]: the helpers are not part of this file.  [umap] sends a
    unit-interval value to a range and acts elementwise on arrays; [gvec] and
    [hvec] turn band-power tensors into residual vectors. *)
Class Aux : Type := {
  umap : float → float * float → float;
  gvec : ndarray → result (list float);
  hvec : ndarray → ndarray → ndarray → result (list float);
}.

(** The numpy operations the file calls on whole arrays. *)
Class Numpy : Type := {
  nd_add : ndarray → ndarray → result ndarray;
  nd_sub : ndarray → ndarray → result ndarray;
  lstsq : ndarray → list float → result (list float);
  vdot : list float → list float → result float;
  mean : list float → float;
  int_of_float : float → result Z;
}.

(** ** The fit object and the interpreter state *)

(** The concrete class of a fit object: the base class [fit] has neither
    [loglikeli] nor [lsq]; [hlfit] carries its [_offset] tensor. *)
Inductive variant : Type :=
| basefit
| gaussfit
| hlfit (_offset : ndarray).

Record fit (FG BG : Type) : Type := Fit {
  _data : ndarray;
  _fiducial : ndarray;
  _noise : ndarray;
  _covariance : ndarray;
  _params : gmap string float;
  _paramrange : gmap string (float * float);
  _activelist : gset string;
  _background : option BG;
  _foreground : option FG;
  _solver : string;
  _class : variant;
}.
Arguments Fit {FG BG}.
Arguments _data {FG BG} f.
Arguments _fiducial {FG BG} f.
Arguments _noise {FG BG} f.
Arguments _covariance {FG BG} f.
Arguments _params {FG BG} f.
Arguments _paramrange {FG BG} f.
Arguments _activelist {FG BG} f.
Arguments _background {FG BG} f.
Arguments _foreground {FG BG} f.
Arguments _solver {FG BG} f.
Arguments _class {FG BG} f.

(** Calls made on the model adapters and on the statistic, in the order in
    which they happen. *)
Inductive call : Type :=
| FgReset (delta : gmap string float)
| BgReset (delta : gmap string float)
| FgBandpower
| BgBandpower
| Loglikeli (predicted : ndarray)
| Lsq (predicted : ndarray).

(** The interpreter state: the fit object (with the models it points to), the
    calls made so far, and the state [ext] of everything outside the file
    (numpy's random generator, the engines). *)
Record world (FG BG Ext : Type) : Type := World {
  this : fit FG BG;
  trace : list call;
  ext : Ext;
}.
Arguments World {FG BG Ext}.
Arguments this {FG BG Ext} w.
Arguments trace {FG BG Ext} w.
Arguments ext {FG BG Ext} w.

(** A Python computation: it ends with a value or a raised exception, and
    leaves a state either way. *)
Definition Py (W A : Type) : Type := W → result A * W.

#[global] Instance Py_ret {W} : MRet (Py W) := λ A a w, (Ok a, w).
#[global] Instance Py_bind {W} : MBind (Py W) := λ A B f m w,
  match m w with
  | (Ok a, w') => f a w'
  | (Raise e, w') => (Raise e, w')
  end.

Definition raise {W A} (e : exn) : Py W A := λ w, (Raise e, w).
Definition lift {W A} (r : result A) : Py W A := λ w, (r, w).

(** [for x in l: body(x)] *)
Fixpoint for_each {W A} (l : list A) (body : A → Py W unit) : Py W unit :=
  match l with
  | [] => mret tt
  | x :: l' => body x ≫= λ _, for_each l' body
  end.

(** The solver's answer, one shape per solver. *)
Inductive run_result (R : Type) : Type :=
| MinuitResult (best err : list float)
| EmceeResult (chain : array2)
| DynestyResult (results : R).
Arguments MinuitResult {R} best err.
Arguments EmceeResult {R} chain.
Arguments DynestyResult {R} results.

(** The result object of the nested sampler: the sample matrix and every
    other field (evidence, weights, ...). *)
Record results (O : Type) : Type := Results { samples : array2; others : O }.
Arguments Results {O}.
Arguments samples {O} r.
Arguments others {O} r.

(** The three engines, as the file uses them.  An engine runs the objective
    it is given, so its operations are computations on the state [W]. *)
Class Engines (W : Type) : Type := {
  (* iminuit.Minuit *)
  minuit : Type;
  Minuit : (list float → Py W float) → list float → list string → Py W minuit;
  set_limits : minuit → float * float → minuit;
  migrad : minuit → Py W minuit;
  minos : minuit → Py W minuit;
  minuit_values : minuit → list float;
  minuit_errors : minuit → list float;
  (* emcee.EnsembleSampler and np.random.uniform *)
  ensemble : Type;
  walkers : Type;
  random_uniform : Z → nat → Py W walkers;
  EnsembleSampler : Z → nat → (list float → Py W float) → Py W ensemble;
  run_mcmc : ensemble → walkers → Z → Py W (walkers * ensemble);
  reset_chain : ensemble → Py W ensemble;
  get_autocorr_time : ensemble → Py W (list float);
  get_chain : ensemble → Z → bool → Py W array2;
  (* dynesty.DynamicNestedSampler *)
  nested : Type;
  evidence : Type;
  DynamicNestedSampler :
    (list float → Py W float) → (list float → list float) → nat → Py W nested;
  run_nested : nested → gmap string Z → Py W nested;
  get_results : nested → results evidence;
}.

Section Fit.

Context {FG BG Ext : Type}.
Context `{!ModelAdapter FG} `{!ModelAdapter BG} `{!Aux} `{!Numpy}.
Context `{!Engines (world FG BG Ext)}.

Abbreviation fitobj := (fit FG BG).
Abbreviation W := (world FG BG Ext).

(** *** Property setters (lines 92-165) *)

Definition data_setter (data : ndarray) : result ndarray :=
  if decide (ndim data = 4) then
    if isnan_any data then Raise (ValueError "encounter nan") else Ok data
  else Raise AssertionError.

Definition fiducial_setter (fiducial : ndarray) : result ndarray :=
  if decide (ndim fiducial = 4) then
    if isnan_any fiducial then Raise (ValueError "encounter nan") else Ok fiducial
  else Raise AssertionError.

Definition noise_setter (noise : ndarray) : result ndarray :=
  if decide (ndim noise = 4) then
    if isnan_any noise then Raise (ValueError "encounter nan") else Ok noise
  else Raise AssertionError.

Definition covariance_setter (covariance : ndarray) : result ndarray :=
  if decide (ndim covariance = 2) then
    if decide (shape covariance !! 0 = shape covariance !! 1) then
      if isnan_any covariance then Raise (ValueError "encounter nan")
      else Ok covariance
    else Raise AssertionError
  else Raise AssertionError.

(** Plain attribute writes. *)
Definition with_foreground (fg : option FG) (self : fitobj) : fitobj :=
  Fit (_data self) (_fiducial self) (_noise self) (_covariance self)
      (_params self) (_paramrange self) (_activelist self)
      (_background self) fg (_solver self) (_class self).

Definition with_background (bg : option BG) (self : fitobj) : fitobj :=
  Fit (_data self) (_fiducial self) (_noise self) (_covariance self)
      (_params self) (_paramrange self) (_activelist self)
      bg (_foreground self) (_solver self) (_class self).

Definition with_activelist (act : gset string) (self : fitobj) : fitobj :=
  Fit (_data self) (_fiducial self) (_noise self) (_covariance self)
      (_params self) (_paramrange self) act
      (_background self) (_foreground self) (_solver self) (_class self).

Definition with_dicts (ps : gmap string float) (pr : gmap string (float * float))
    (self : fitobj) : fitobj :=
  Fit (_data self) (_fiducial self) (_noise self) (_covariance self)
      ps pr (_activelist self)
      (_background self) (_foreground self) (_solver self) (_class self).

Definition with_solver (s : string) (self : fitobj) : fitobj :=
  Fit (_data self) (_fiducial self) (_noise self) (_covariance self)
      (_params self) (_paramrange self) (_activelist self)
      (_background self) (_foreground self) s (_class self).

Definition with_class (c : variant) (self : fitobj) : fitobj :=
  Fit (_data self) (_fiducial self) (_noise self) (_covariance self)
      (_params self) (_paramrange self) (_activelist self)
      (_background self) (_foreground self) (_solver self) c.

(** [d.update(other)]: the entries of [other] are written over [d]. *)
Definition dict_update {V} (d other : gmap string V) : gmap string V := other ∪ d.

Definition foreground_setter (foreground : option FG) (self : fitobj) : fitobj :=
  match foreground with
  | None => with_foreground None self
  | Some m =>
      let self := with_foreground (Some m) self in
      with_dicts (dict_update (_params self) (params m))
                 (dict_update (_paramrange self) (paramrange m)) self
  end.

Definition background_setter (background : option BG) (self : fitobj) : fitobj :=
  match background with
  | None => with_background None self
  | Some m =>
      let self := with_background (Some m) self in
      with_dicts (dict_update (_params self) (params m))
                 (dict_update (_paramrange self) (paramrange m)) self
  end.

Definition solver_setter (solver : string) : result string :=
  if decide (solver ∈ ["minuit"; "dynesty"; "emcee"]) then Ok solver
  else Raise AssertionError.

(** *** Constructors (lines 13-50, 270-271, 297-313) *)

(** [fit.__init__], run for an object of class [cls].  The attribute
    [_solver] does not exist before its setter runs; nothing reads the
    placeholder. *)
Definition fit_init (cls : variant) (data fiducial noise covariance : ndarray)
    (background : option BG) (foreground : option FG) (solver : string)
  : result fitobj :=
  d ← data_setter data;
  f ← fiducial_setter fiducial;
  n ← noise_setter noise;
  c ← covariance_setter covariance;
  let self := Fit d f n c ∅ ∅ ∅ None None "" cls in
  let self := background_setter background self in
  let self := foreground_setter foreground self in
  match _foreground self, _background self with
  | None, None => Raise (ValueError "no activated model")
  | _, _ => s ← solver_setter solver; Ok (with_solver s self)
  end.

Definition gaussfit_init (data fiducial noise covariance : ndarray)
    (background : option BG) (foreground : option FG) (solver : string)
  : result fitobj :=
  fit_init gaussfit data fiducial noise covariance background foreground solver.

(** [hlfit.offset]'s setter, given the noise tensor already stored. *)
Definition offset_setter (noise : ndarray) (offset : option ndarray) : result ndarray :=
  match offset with
  | None => Ok (zeros_like noise float32)
  | Some o =>
      if decide (shape o = shape noise) then
        if isnan_any o then Raise (ValueError "encounter nan") else Ok o
      else Raise AssertionError
  end.

Definition hlfit_init (data fiducial noise covariance : ndarray)
    (background : option BG) (foreground : option FG) (solver : string)
    (offset : option ndarray) : result fitobj :=
  self ← fit_init (hlfit (zeros_like noise float32)) data fiducial noise covariance
                  background foreground solver;
  o ← offset_setter (_noise self) offset;
  Ok (with_class (hlfit o) self).

(** A value of the dictionary handed to [rerange]: a list or tuple with its
    items (numbers, as the bounds [umap] scales with), or any other Python
    object (an array, a number, a string), which fails the [isinstance]
    assertion of line 171. *)
Inductive pyvalue : Type :=
| PySequence (items : list float)
| PyObject.

(** [rerange] (lines 167-173).  The dictionary [pdict] is walked in its
    insertion order; a name that is no key of [_paramrange] is skipped
    before its value is looked at; for a key the value must be a list or a
    tuple, of length two (the two assertions), and is then written over the
    old range.  An assertion that fails leaves the updates already made in
    place. *)
Definition rerange_item (name : string) (value : pyvalue) (self : fitobj)
  : result unit * fitobj :=
  if decide (name ∈ dom (_paramrange self)) then
    match value with
    | PySequence items =>
        match items with
        | [low; high] =>
            (Ok tt,
             with_dicts (_params self)
               (dict_update (_paramrange self) {[ name := (low, high) ]}) self)
        | _ => (Raise AssertionError, self)
        end
    | PyObject => (Raise AssertionError, self)
    end
  else (Ok tt, self).

Fixpoint rerange (pdict : list (string * pyvalue)) (self : fitobj)
  : result unit * fitobj :=
  match pdict with
  | [] => (Ok tt, self)
  | (name, value) :: rest =>
      match rerange_item name value self with
      | (Ok _, self') => rerange rest self'
      | (Raise e, self') => (Raise e, self')
      end
  end.

(** *** The statistics (lines 273-291 and 315-333) *)

Definition gaussfit_loglikeli (self : fitobj) (predicted : ndarray) : result float :=
  if decide (shape predicted = shape (_data self)) then
    s ← nd_add predicted (_noise self);
    r ← nd_sub s (_data self);
    diff ← gvec r;
    if Np.any_isnan diff then Raise (ValueError "encounter nan")
    else
      x ← lstsq (_covariance self) diff;
      v ← vdot diff x;
      let logl := (-0.5 * v)%float in
      if Np.isnan logl then Ok (Np.nan_to_num (- Np.inf)%float) else Ok logl
  else Raise AssertionError.

Definition gaussfit_lsq (self : fitobj) (predicted : ndarray) : result float :=
  if decide (shape predicted = shape (_data self)) then
    s ← nd_add predicted (_noise self);
    r ← nd_sub s (_data self);
    diff ← gvec r;
    if Np.any_isnan diff then Raise (ValueError "encounter nan")
    else
      x ← lstsq (_covariance self) diff;
      chi ← vdot diff x;
      if Np.isnan chi then Ok (Np.nan_to_num Np.inf) else Ok chi
  else Raise AssertionError.

Definition hlfit_loglikeli (self : fitobj) (_offset : ndarray) (predicted : ndarray)
  : result float :=
  if decide (shape predicted = shape (_data self)) then
    a0 ← nd_add predicted (_noise self);
    a ← nd_add a0 _offset;
    b ← nd_add (_data self) _offset;
    c0 ← nd_add (_fiducial self) (_noise self);
    c ← nd_add c0 _offset;
    diff ← hvec a b c;
    if Np.any_isnan diff then Raise (ValueError "encounter nan")
    else
      x ← lstsq (_covariance self) diff;
      v ← vdot diff x;
      let logl := (-0.5 * v)%float in
      if Np.isnan logl then Ok (Np.nan_to_num (- Np.inf)%float) else Ok logl
  else Raise AssertionError.

Definition hlfit_lsq (self : fitobj) (_offset : ndarray) (predicted : ndarray)
  : result float :=
  if decide (shape predicted = shape (_data self)) then
    a0 ← nd_add predicted (_noise self);
    a ← nd_add a0 _offset;
    b ← nd_add (_data self) _offset;
    c0 ← nd_add (_fiducial self) (_noise self);
    c ← nd_add c0 _offset;
    diff ← hvec a b c;
    if Np.any_isnan diff then Raise (ValueError "encounter nan")
    else
      x ← lstsq (_covariance self) diff;
      chi ← vdot diff x;
      if Np.isnan chi then Ok (Np.nan_to_num Np.inf) else Ok chi
  else Raise AssertionError.

(** Method dispatch on the object's class; the base class has neither
    method. *)
Definition loglikeli (self : fitobj) (predicted : ndarray) : result float :=
  match _class self with
  | basefit => Raise AttributeError
  | gaussfit => gaussfit_loglikeli self predicted
  | hlfit o => hlfit_loglikeli self o predicted
  end.

Definition lsq (self : fitobj) (predicted : ndarray) : result float :=
  match _class self with
  | basefit => Raise AttributeError
  | gaussfit => gaussfit_lsq self predicted
  | hlfit o => hlfit_lsq self o predicted
  end.

(** *** Access to the object and to its models *)

Definition get_this : Py W fitobj := λ w, (Ok (this w), w).

Definition set_activelist (act : gset string) : Py W unit := λ w,
  (Ok tt, World (with_activelist act (this w)) (trace w) (ext w)).

(** [if self._foreground is not None: self._foreground.reset(delta)] *)
Definition fg_reset (delta : gmap string float) : Py W unit := λ w,
  match _foreground (this w) with
  | Some m =>
      (Ok tt, World (with_foreground (Some (reset m delta)) (this w))
                    (trace w ++ [FgReset delta]) (ext w))
  | None => (Ok tt, w)
  end.

(** [if self._background is not None: self._background.reset(delta)] *)
Definition bg_reset (delta : gmap string float) : Py W unit := λ w,
  match _background (this w) with
  | Some m =>
      (Ok tt, World (with_background (Some (reset m delta)) (this w))
                    (trace w ++ [BgReset delta]) (ext w))
  | None => (Ok tt, w)
  end.

(** [self._foreground.bandpower()]; on [None] the attribute is missing. *)
Definition fg_bandpower : Py W ndarray := λ w,
  match _foreground (this w) with
  | Some m => (Ok (bandpower m), World (this w) (trace w ++ [FgBandpower]) (ext w))
  | None => (Raise AttributeError, w)
  end.

Definition bg_bandpower : Py W ndarray := λ w,
  match _background (this w) with
  | Some m => (Ok (bandpower m), World (this w) (trace w ++ [BgBandpower]) (ext w))
  | None => (Raise AttributeError, w)
  end.

(** A call of the bound method [self.loglikeli] resp. [self.lsq]. *)
Definition call_loglikeli (predicted : ndarray) : Py W float := λ w,
  (loglikeli (this w) predicted,
   World (this w) (trace w ++ [Loglikeli predicted]) (ext w)).

Definition call_lsq (predicted : ndarray) : Py W float := λ w,
  (lsq (this w) predicted,
   World (this w) (trace w ++ [Lsq predicted]) (ext w)).

(** The attribute lookups [self.loglikeli] and [self.lsq], which Python does
    before it evaluates the argument of the call. *)
Definition loglikeli_method : Py W (ndarray → Py W float) := λ w,
  match _class (this w) with
  | basefit => (Raise AttributeError, w)
  | _ => (Ok call_loglikeli, w)
  end.

Definition lsq_method : Py W (ndarray → Py W float) := λ w,
  match _class (this w) with
  | basefit => (Raise AttributeError, w)
  | _ => (Ok call_lsq, w)
  end.

(** *** The objective (lines 225-264) *)

Definition _core_likelihood (cube : list float) : Py W float :=
  if Np.any_gt cube 1 || Np.any_lt cube 0 then
    mret (Np.nan_to_num (- Np.inf)%float)
  else
    self ← get_this;
    let name_list := sorted (_activelist self) in
    for_each (seq 0 (length name_list)) (λ i,
      name ← lift (index name_list i);
      c ← lift (index cube i);
      self ← get_this;
      r ← lift (getitem (_paramrange self) name);
      let tmp := umap c r in
      fg_reset {[name := tmp]};;
      bg_reset {[name := tmp]});;
    self ← get_this;
    match _foreground self, _background self with
    | None, _ =>
        f ← loglikeli_method; p ← bg_bandpower; f p
    | Some _, None =>
        f ← loglikeli_method; p ← fg_bandpower; f p
    | Some _, Some _ =>
        f ← loglikeli_method;
        pf ← fg_bandpower; pb ← bg_bandpower;
        p ← lift (nd_add pf pb);
        f p
    end.

Definition _core_lsq (cube : list float) : Py W float :=
  if Np.any_gt cube 1 || Np.any_lt cube 0 then
    mret (Np.nan_to_num Np.inf)
  else
    self ← get_this;
    let name_list := sorted (_activelist self) in
    for_each (seq 0 (length name_list)) (λ i,
      name ← lift (index name_list i);
      c ← lift (index cube i);
      self ← get_this;
      r ← lift (getitem (_paramrange self) name);
      let tmp := umap c r in
      fg_reset {[name := tmp]};;
      bg_reset {[name := tmp]});;
    self ← get_this;
    match _foreground self, _background self with
    | None, _ =>
        f ← lsq_method; p ← bg_bandpower; f p
    | Some _, None =>
        f ← lsq_method; p ← fg_bandpower; f p
    | Some _, Some _ =>
        f ← lsq_method;
        pf ← fg_bandpower; pb ← bg_bandpower;
        p ← lift (nd_add pf pb);
        f p
    end.

(** The flat prior. *)
Definition prior (cube : list float) : list float := cube.

(** *** The solver adapters (lines 183-223) *)

(** [for x in l: acc = body(x, acc)] on local values. *)
Fixpoint for_acc {A S} (l : list A) (body : A → S → result S) (acc : S) : result S :=
  match l with
  | [] => Ok acc
  | x :: l' => body x acc ≫= for_acc l' body
  end.

(** The loop that maps column [i] of a sample matrix to the range of
    [names[i]] (lines 208-211 and 219-222). *)
Definition remap_columns (self : fitobj) (names : list string) (a : array2)
  : result array2 :=
  for_acc (seq 0 (length names)) (λ i a,
    name ← index names i;
    r ← getitem (_paramrange self) name;
    column_update i (λ x, umap x r) a) a.

(** The same loop on the best-fit and error vectors (lines 190-194). *)
Definition remap_best_err (self : fitobj) (names : list string)
    (be : list float * list float) : result (list float * list float) :=
  for_acc (seq 0 (length names)) (λ i be,
    name ← index names i;
    r ← getitem (_paramrange self) name;
    best ← item_update i (λ x, umap x r) be.1;
    err ← item_update i (λ x, umap x r) be.2;
    Ok (best, err)) be.

Abbreviation answer := (run_result (results evidence)).

Definition run_minuit (kwargs : gmap string Z) : Py W answer :=
  self ← get_this;
  solver ← Minuit _core_lsq (replicate (size (_activelist self)) 0.5%float)
                  (sorted (_activelist self));
  let solver := set_limits solver (0%float, 1%float) in
  solver ← migrad solver;
  let best := minuit_values solver in
  solver ← minos solver;
  let err := minuit_errors solver in
  self ← get_this;
  let names := sorted (_activelist self) in
  be ← lift (remap_best_err self names (best, err));
  mret (MinuitResult be.1 be.2).

(** The default value of [run_emcee]'s parameter; Python uses it only when
    the method is called without an argument. *)
Definition run_emcee_default : gmap string Z :=
  {[ "nwalker" := 100%Z; "nstep" := 10000%Z ]}.

Definition run_emcee (kwargs : gmap string Z) : Py W answer :=
  nwalker ← lift (getitem kwargs "nwalker");
  self ← get_this;
  solver ← EnsembleSampler nwalker (size (_activelist self)) _core_likelihood;
  nwalker ← lift (getitem kwargs "nwalker");
  self ← get_this;
  p0 ← random_uniform nwalker (size (_activelist self));
  nstep ← lift (getitem kwargs "nstep");
  ss ← run_mcmc solver p0 (nstep `div` 10)%Z;
  solver ← reset_chain ss.2;
  nstep ← lift (getitem kwargs "nstep");
  ss ← run_mcmc solver ss.1 nstep;
  let state := ss.1 in
  t ← get_autocorr_time ss.2;
  tau ← lift (int_of_float (mean t));
  nstep ← lift (getitem kwargs "nstep");
  solver ← (if decide (nstep < 50 * tau)%Z then
              solver ← reset_chain ss.2;
              ss' ← run_mcmc solver state (100 * tau)%Z;
              mret ss'.2
            else mret ss.2);
  chain ← get_chain solver (10 * tau)%Z true;
  self ← get_this;
  let names := sorted (_activelist self) in
  chain ← lift (remap_columns self names chain);
  mret (EmceeResult chain).

Definition run_dynesty (kwargs : gmap string Z) : Py W answer :=
  self ← get_this;
  solver ← DynamicNestedSampler _core_likelihood prior (size (_activelist self));
  solver ← run_nested solver kwargs;
  let res := get_results solver in
  self ← get_this;
  let names := sorted (_activelist self) in
  s ← lift (remap_columns self names (samples res));
  mret (DynestyResult (Results s (others res))).

(** *** [run] (lines 175-181) *)

Definition _rundict (solver : string) : option (gmap string Z → Py W answer) :=
  if decide (solver = "minuit") then Some run_minuit
  else if decide (solver = "emcee") then Some run_emcee
  else if decide (solver = "dynesty") then Some run_dynesty
  else None.

Definition run (kwargs : gmap string Z) : Py W answer :=
  self ← get_this;
  set_activelist (dom (_params self));;
  self ← get_this;
  match _background self with
  | Some bg => set_activelist (_activelist self ∖ list_to_set (blacklist bg))
  | None => mret tt
  end;;
  self ← get_this;
  match _foreground self with
  | Some fg => set_activelist (_activelist self ∖ list_to_set (blacklist fg))
  | None => mret tt
  end;;
  self ← get_this;
  match _rundict (_solver self) with
  | Some solve => solve kwargs
  | None => raise (KeyError (_solver self))
  end.

(** *** The steps of the objective and of [run], named for the proofs *)

(** The body of the loop of lines 229-235 and 248-254. *)
Definition reset_step (name_list : list string) (cube : list float) (i : nat)
  : Py W unit :=
  name ← lift (index name_list i);
  c ← lift (index cube i);
  self ← get_this;
  r ← lift (getitem (_paramrange self) name);
  let tmp := umap c r in
  fg_reset {[name := tmp]};;
  bg_reset {[name := tmp]}.

(** The prediction and the call of the statistic (lines 236-242, 255-261). *)
Definition predict_step (method : Py W (ndarray → Py W float)) : Py W float :=
  self ← get_this;
  match _foreground self, _background self with
  | None, _ =>
      f ← method; p ← bg_bandpower; f p
  | Some _, None =>
      f ← method; p ← fg_bandpower; f p
  | Some _, Some _ =>
      f ← method;
      pf ← fg_bandpower; pb ← bg_bandpower;
      p ← lift (nd_add pf pb);
      f p
  end.

(** The dispatch through [_rundict] that ends [run] (line 181). *)
Definition dispatch (kwargs : gmap string Z) : Py W answer :=
  self ← get_this;
  match _rundict (_solver self) with
  | Some solve => solve kwargs
  | None => raise (KeyError (_solver self))
  end.

(** The sampling part of [run_emcee] (lines 199-207): everything before the
    chain is mapped to physical units. *)
Definition emcee_sample (kwargs : gmap string Z) : Py W array2 :=
  nwalker ← lift (getitem kwargs "nwalker");
  self ← get_this;
  solver ← EnsembleSampler nwalker (size (_activelist self)) _core_likelihood;
  nwalker ← lift (getitem kwargs "nwalker");
  self ← get_this;
  p0 ← random_uniform nwalker (size (_activelist self));
  nstep ← lift (getitem kwargs "nstep");
  ss ← run_mcmc solver p0 (nstep `div` 10)%Z;
  solver ← reset_chain ss.2;
  nstep ← lift (getitem kwargs "nstep");
  ss ← run_mcmc solver ss.1 nstep;
  let state := ss.1 in
  t ← get_autocorr_time ss.2;
  tau ← lift (int_of_float (mean t));
  nstep ← lift (getitem kwargs "nstep");
  solver ← (if decide (nstep < 50 * tau)%Z then
              solver ← reset_chain ss.2;
              ss' ← run_mcmc solver state (100 * tau)%Z;
              mret ss'.2
            else mret ss.2);
  get_chain solver (10 * tau)%Z true.

(** The minimisation of [run_minuit] (lines 184-186): the optimiser built on
    [_core_lsq], started at the middle of the cube, bounded to it, and run. *)
Definition minuit_migrad : Py W minuit :=
  self ← get_this;
  solver ← Minuit _core_lsq (replicate (size (_activelist self)) 0.5%float)
                  (sorted (_activelist self));
  migrad (set_limits solver (0%float, 1%float)).

End Fit.

(** ** The objective and the statistics as the specification words them *)

Section Specification.

Context {FG BG Ext : Type}.
Context `{!ModelAdapter FG} `{!ModelAdapter BG} `{!Aux} `{!Numpy}.

Abbreviation fitobj := (fit FG BG).
Abbreviation W := (world FG BG Ext).

(** A cube coordinate lies in the unit interval. *)
Definition in_unit (c : float) : Prop :=
  (0 <=? c)%float = true ∧ (c <=? 1)%float = true.

(** A cube coordinate lies outside the unit interval. *)
Definition off_unit (c : float) : Prop :=
  (1 <? c)%float = true ∨ (c <? 0)%float = true.

(** The physical value of each name: the i-th name takes the i-th cube
    coordinate, mapped by [umap] with the range declared for that name. *)
Fixpoint physical_values (pr : gmap string (float * float)) (names : list string)
    (cube : list float) : result (list (string * float)) :=
  match names, cube with
  | [], _ => Ok []
  | name :: names', c :: cube' =>
      r ← getitem pr name;
      rest ← physical_values pr names' cube';
      Ok ((name, umap c r) :: rest)
  | _ :: _, [] => Raise IndexError
  end.

(** The call an attached model receives; none when the model is absent. *)
Definition when_attached {A} (o : option A) (c : call) : list call :=
  match o with Some _ => [c] | None => [] end.

(** One parameter pushed into every attached model, foreground first. *)
Definition push_parameter (w : W) (nv : string * float) : W :=
  let delta : gmap string float := {[ nv.1 := nv.2 ]} in
  let self := this w in
  World
    (with_background (flip reset delta <$> _background self)
       (with_foreground (flip reset delta <$> _foreground self) self))
    (trace w
       ++ when_attached (_foreground self) (FgReset delta)
       ++ when_attached (_background self) (BgReset delta))
    (ext w).

(** Which of the two statistics an entry point evaluates. *)
Inductive statistic_form : Type := LogLikelihood | ChiSquare.

Definition evaluate (form : statistic_form) (self : fitobj) (predicted : ndarray)
  : result float :=
  match form with
  | LogLikelihood => loglikeli self predicted
  | ChiSquare => lsq self predicted
  end.

Definition evaluation (form : statistic_form) (predicted : ndarray) : call :=
  match form with
  | LogLikelihood => Loglikeli predicted
  | ChiSquare => Lsq predicted
  end.

(** The band-power prediction: the sum when both models are attached, the
    lone model's band-power otherwise. *)
Definition prediction (fg : option FG) (bg : option BG) : result ndarray :=
  match fg, bg with
  | Some f, Some b => nd_add (bandpower f) (bandpower b)
  | Some f, None => Ok (bandpower f)
  | None, Some b => Ok (bandpower b)
  | None, None => Raise AttributeError
  end.

(** The calls to [bandpower] that the prediction makes. *)
Definition prediction_calls (fg : option FG) (bg : option BG) : list call :=
  when_attached fg FgBandpower ++ when_attached bg BgBandpower.

(** Prediction and statistic, once the models hold the physical values.  An
    object of the base class has no statistic, and fails before it asks for
    a band-power. *)
Definition predict_and_evaluate (form : statistic_form) (w : W) : result float * W :=
  let self := this w in
  match _class self with
  | basefit => (Raise AttributeError, w)
  | _ =>
      let fg := _foreground self in
      let bg := _background self in
      match prediction fg bg with
      | Ok p =>
          (evaluate form self p,
           World self (trace w ++ prediction_calls fg bg ++ [evaluation form p]) (ext w))
      | Raise e =>
          (Raise e, World self (trace w ++ prediction_calls fg bg) (ext w))
      end
  end.

(** The objective on a point of the unit cube. *)
Definition objective (form : statistic_form) (values : list (string * float)) (w : W)
  : result float * W :=
  predict_and_evaluate form (foldl push_parameter w values).

(** The residual vector of each variant. *)
Definition residual (self : fitobj) (predicted : ndarray) : result (list float) :=
  match _class self with
  | basefit => Raise AttributeError
  | gaussfit =>
      s ← nd_add predicted (_noise self);
      r ← nd_sub s (_data self);
      gvec r
  | hlfit o =>
      a0 ← nd_add predicted (_noise self);
      a ← nd_add a0 o;
      b ← nd_add (_data self) o;
      c0 ← nd_add (_fiducial self) (_noise self);
      c ← nd_add c0 o;
      hvec a b c
  end.

(** The covariance-weighted reduction of a residual, by a least-squares
    solve. *)
Definition weighted (self : fitobj) (diff : list float) : result float :=
  x ← lstsq (_covariance self) diff;
  vdot diff x.

(** The statistic both forms are built from: shape check, residual, NaN
    check on the residual, reduction. *)
Definition statistic (self : fitobj) (predicted : ndarray) : result float :=
  match _class self with
  | basefit => Raise AttributeError
  | _ =>
      if decide (shape predicted = shape (_data self)) then
        diff ← residual self predicted;
        if Np.any_isnan diff then Raise (ValueError "encounter nan")
        else weighted self diff
      else Raise AssertionError
  end.

(** The active-parameter set [run] computes: the merged parameter names
    minus the blacklist of each attached model. *)
Definition active_parameters (self : fitobj) : gset string :=
  dom (_params self)
    ∖ (match _background self with
       | Some bg => list_to_set (blacklist bg) | None => ∅ end)
    ∖ (match _foreground self with
       | Some fg => list_to_set (blacklist fg) | None => ∅ end).

(** Each tensor's own validity, as its setter checks it. *)
Definition valid_tensor (a : ndarray) : Prop := ndim a = 4 ∧ isnan_any a = false.

Definition valid_covariance (c : ndarray) : Prop :=
  ndim c = 2 ∧ shape c !! 0 = shape c !! 1 ∧ isnan_any c = false.

Definition valid_solver (s : string) : Prop := s ∈ ["minuit"; "dynesty"; "emcee"].

(** A sample of column [i] in physical units: mapped with the range of the
    i-th name; columns beyond the names are left as they are. *)
Definition column_map (pr : gmap string (float * float)) (names : list string)
    (i : nat) (x : float) : float :=
  match names !! i with
  | Some name => match pr !! name with Some r => umap x r | None => x end
  | None => x
  end.

(** The sample matrix with its first [n] columns in physical units. *)
Definition remapped (pr : gmap string (float * float)) (names : list string)
    (n : nat) (a : array2) : array2 :=
  Array2 (ncols a)
    (imap (λ i x, if decide (i < n) then column_map pr names i x else x) <$> rows a).

(** The offset handed to [hlfit]: absent, or shaped like the noise tensor and
    free of NaN. *)
Definition valid_offset (noise : ndarray) (offset : option ndarray) : Prop :=
  match offset with
  | None => True
  | Some o => shape o = shape noise ∧ isnan_any o = false
  end.

(** The object [fit.__init__] builds from valid arguments. *)
Definition constructed (cls : variant) (data fiducial noise covariance : ndarray)
    (background : option BG) (foreground : option FG) (solver : string) : fitobj :=
  with_solver solver
    (foreground_setter foreground
       (background_setter background
          (Fit data fiducial noise covariance ∅ ∅ ∅ None None "" cls))).

(** The physical values obtained before the first missing cube coordinate
    or missing range. *)
Fixpoint physical_prefix (pr : gmap string (float * float)) (names : list string)
    (cube : list float) : list (string * float) :=
  match names, cube with
  | name :: names', c :: cube' =>
      match pr !! name with
      | Some r => (name, umap c r) :: physical_prefix pr names' cube'
      | None => []
      end
  | _, _ => []
  end.

(** What an evaluation of the objective leaves alone: the tensors, the
    merged dictionaries, the active set, the solver name, the class, the
    outside state, which models are attached, and the calls already made. *)
Definition frame_kept (w w' : W) : Prop :=
  _data (this w') = _data (this w)
  ∧ _fiducial (this w') = _fiducial (this w)
  ∧ _noise (this w') = _noise (this w)
  ∧ _covariance (this w') = _covariance (this w)
  ∧ _params (this w') = _params (this w)
  ∧ _paramrange (this w') = _paramrange (this w)
  ∧ _activelist (this w') = _activelist (this w)
  ∧ _solver (this w') = _solver (this w)
  ∧ _class (this w') = _class (this w)
  ∧ ext w' = ext w
  ∧ (is_Some (_foreground (this w')) ↔ is_Some (_foreground (this w)))
  ∧ (is_Some (_background (this w')) ↔ is_Some (_background (this w)))
  ∧ trace w `prefix_of` trace w'.

(** A computation that keeps the frame from every state. *)
Definition keeps_frame {A} (m : Py W A) : Prop := ∀ w, frame_kept w (m w).2.

(** A value [rerange] accepts for a key: a list or tuple of length two. *)
Definition is_pair (value : pyvalue) : Prop :=
  ∃ low high, value = PySequence [low; high].

(** What [rerange] leaves alone: everything but the values stored in
    [_paramrange], whose keys stay the same. *)
Definition rerange_frame (self self' : fitobj) : Prop :=
  dom (_paramrange self') = dom (_paramrange self)
  ∧ _params self' = _params self
  ∧ _data self' = _data self
  ∧ _fiducial self' = _fiducial self
  ∧ _noise self' = _noise self
  ∧ _covariance self' = _covariance self
  ∧ _activelist self' = _activelist self
  ∧ _background self' = _background self
  ∧ _foreground self' = _foreground self
  ∧ _solver self' = _solver self
  ∧ _class self' = _class self.

(** A model after it was reset with each physical value in turn. *)
Definition reset_all {M} `{!ModelAdapter M} (values : list (string * float)) (m : M)
  : M :=
  foldl (λ m nv, reset m {[ nv.1 := nv.2 ]}) m values.

(** The reset calls these values cause: for each value the foreground, then
    the background, each only when attached. *)
Fixpoint reset_calls (fg : option FG) (bg : option BG)
    (values : list (string * float)) : list call :=
  match values with
  | [] => []
  | nv :: rest =>
      when_attached fg (FgReset {[ nv.1 := nv.2 ]})
        ++ when_attached bg (BgReset {[ nv.1 := nv.2 ]})
        ++ reset_calls fg bg rest
  end.

(** The state [w'] is the state [w] with every attached model reset with
    [values] and nothing else changed in the object or outside it; read off
    the fields one by one. *)
Definition models_reset (values : list (string * float)) (w w' : W) : Prop :=
  _foreground (this w') = reset_all values <$> _foreground (this w)
  ∧ _background (this w') = reset_all values <$> _background (this w)
  ∧ _data (this w') = _data (this w)
  ∧ _fiducial (this w') = _fiducial (this w)
  ∧ _noise (this w') = _noise (this w)
  ∧ _covariance (this w') = _covariance (this w)
  ∧ _params (this w') = _params (this w)
  ∧ _paramrange (this w') = _paramrange (this w)
  ∧ _activelist (this w') = _activelist (this w)
  ∧ _solver (this w') = _solver (this w)
  ∧ _class (this w') = _class (this w)
  ∧ ext w' = ext w.

(** The outcome [out] (returned value and final state) of an entry point
    that evaluated the objective on [values] from the state [w]: the models
    hold the values, the calls made are the resets, the band-powers and the
    statistic, and the value returned is the statistic of the prediction of
    the reset models. *)
Definition evaluated (form : statistic_form) (values : list (string * float))
    (w : W) (out : result float * W) : Prop :=
  let fg := _foreground (this w) in
  let bg := _background (this w) in
  let fg' := reset_all values <$> fg in
  let bg' := reset_all values <$> bg in
  models_reset values w out.2
  ∧ match _class (this w) with
    | basefit =>
        out.1 = Raise AttributeError
        ∧ trace out.2 = trace w ++ reset_calls fg bg values
    | _ =>
        match prediction fg' bg' with
        | Ok p =>
            out.1 = evaluate form (this out.2) p
            ∧ trace out.2 =
                trace w ++ reset_calls fg bg values
                  ++ prediction_calls fg' bg' ++ [evaluation form p]
        | Raise e =>
            out.1 = Raise e
            ∧ trace out.2 =
                trace w ++ reset_calls fg bg values ++ prediction_calls fg' bg'
        end
    end.

(** The outcome [out] of an entry point that stopped with the exception [e]
    after the models were reset with [values]. *)
Definition aborted (e : exn) (values : list (string * float)) (w : W)
    (out : result float * W) : Prop :=
  out.1 = Raise e
  ∧ models_reset values w out.2
  ∧ trace out.2 =
      trace w ++ reset_calls (_foreground (this w)) (_background (this w)) values.

(** The entry point of each statistic. *)
Definition entry_point (form : statistic_form) : list float → Py W float :=
  match form with
  | LogLikelihood => _core_likelihood
  | ChiSquare => _core_lsq
  end.

(** The states [w] and [w'] differ at most in the active set; read off the
    fields one by one. *)
Definition same_but_activelist (w w' : W) : Prop :=
  _data (this w') = _data (this w)
  ∧ _fiducial (this w') = _fiducial (this w)
  ∧ _noise (this w') = _noise (this w)
  ∧ _covariance (this w') = _covariance (this w)
  ∧ _params (this w') = _params (this w)
  ∧ _paramrange (this w') = _paramrange (this w)
  ∧ _background (this w') = _background (this w)
  ∧ _foreground (this w') = _foreground (this w)
  ∧ _solver (this w') = _solver (this w)
  ∧ _class (this w') = _class (this w)
  ∧ trace w' = trace w
  ∧ ext w' = ext w.

End Specification.

(** ** A small concrete instance

    One-parameter models on 1x1x1x1 tensors, a least-squares solve that
    divides by the single covariance entry, and engines that evaluate the
    objective once; used to run the definitions on concrete inputs. *)

Module Toy.

Record model : Type := Model {
  m_params : gmap string float;
  m_range : gmap string (float * float);
  m_blacklist : list string;
}.

(** Only declared names are updated. *)
Definition m_reset (m : model) (delta : gmap string float) : model :=
  Model ((delta ∩ m_params m) ∪ m_params m) (m_range m) (m_blacklist m).

(** The band-power is the value of the parameter ["a"]. *)
Definition m_bandpower (m : model) : ndarray :=
  NdArray [1; 1; 1; 1] [default 0%float (m_params m !! "a")] float64.

#[global] Instance model_adapter : ModelAdapter model :=
  {| params := m_params; paramrange := m_range; blacklist := m_blacklist;
     reset := m_reset; bandpower := m_bandpower |}.

#[global] Instance aux : Aux :=
  {| umap := λ x r, (r.1 + (r.2 - r.1) * x)%float;
     gvec := λ a, Ok (flat a);
     hvec := λ a b c, Ok (zip_with PrimFloat.sub (flat a) (flat b)) |}.

Definition elementwise (op : float → float → float) (a b : ndarray) : result ndarray :=
  if decide (shape a = shape b)
  then Ok (NdArray (shape a) (zip_with op (flat a) (flat b)) float64)
  else Raise (ValueError "operands could not be broadcast together").

#[global] Instance numpy : Numpy :=
  {| nd_add := elementwise PrimFloat.add;
     nd_sub := elementwise PrimFloat.sub;
     lstsq := λ c d, Ok ((λ x, x / hd 1 (flat c))%float <$> d);
     vdot := λ a b, Ok (foldr PrimFloat.add 0%float (zip_with PrimFloat.mul a b));
     mean := λ l, hd 0%float l;
     int_of_float := λ x, Ok 1%Z |}.

Abbreviation W := (world model model unit).

#[global] Instance engines : Engines W :=
  {| minuit := list float;
     Minuit := λ f start names, mret start;
     set_limits := λ m _, m;
     migrad := λ m, mret m;
     minos := λ m, mret m;
     minuit_values := λ m, m;
     minuit_errors := λ m, m;
     ensemble := unit;
     walkers := list (list float);
     random_uniform := λ n k, mret (replicate (Z.to_nat n) (replicate k 0.5%float));
     EnsembleSampler := λ n k f, mret tt;
     run_mcmc := λ e ws n, mret (ws, e);
     reset_chain := λ e, mret e;
     get_autocorr_time := λ e, mret [1%float];
     get_chain := λ e d f, mret (Array2 1 [[0.5%float]]);
     nested := list float → Py W float;
     evidence := Z;
     DynamicNestedSampler := λ ll pr n, mret ll;
     run_nested := λ (s : list float → Py W float) kw, s [0.5%float] ≫= λ _, mret s;
     get_results := λ s, Results (Array2 1 [[0.25%float]; [0.75%float]]) 42%Z |}.

Definition tensor (x : float) : ndarray := NdArray [1; 1; 1; 1] [x] float64.
Definition tensor2 (x y : float) : ndarray := NdArray [1; 1; 1; 2] [x; y] float64.
Definition matrix (x : float) : ndarray := NdArray [1; 1] [x] float64.

(** Tensors of shape (1,1,1,n) and square matrices of ones. *)
Definition row (l : list float) : ndarray := NdArray [1; 1; 1; length l] l float64.
Definition ones (n : nat) : ndarray :=
  NdArray [n; n] (replicate (n * n) 1%float) float64.

Definition fg : model :=
  Model {[ "a" := 1%float ]} {[ "a" := (0%float, 10%float) ]} [].
Definition fg' : model :=
  Model {[ "b" := 2%float ]} {[ "b" := (0%float, 4%float) ]} ["b"].
Definition bg : model :=
  Model {[ "a" := 1%float; "r" := 0%float ]}
        {[ "a" := (0%float, 10%float); "r" := (0%float, 1%float) ]} ["r"].

(** A Gaussian fit with the foreground model only. *)
Definition self : fit model model :=
  Fit (tensor 2) (tensor 1) (tensor 0.5) (matrix 1)
      {[ "a" := 1%float ]} {[ "a" := (0%float, 10%float) ]} {[ "a" ]}
      None (Some fg) "dynesty" gaussfit.

Definition w0 : W := World self [] tt.

(** The same fit with a singular covariance. *)
Definition singular : fit model model :=
  Fit (tensor 2) (tensor 1) (tensor 0.5) (matrix 0)
      {[ "a" := 1%float ]} {[ "a" := (0%float, 10%float) ]} {[ "a" ]}
      None (Some fg) "dynesty" gaussfit.

(** The same fit with the ensemble sampler selected. *)
Definition w_emcee : W :=
  World (with_solver (FG:=model) (BG:=model) "emcee" self) [] tt.

(** The state in which the toy nested sampler leaves [w0]: it has evaluated
    the likelihood once, at the middle of the cube. *)
Definition w1 : W := (_core_likelihood [0.5%float] w0).2.

(** A fit with both models whose range dictionary lacks the name ["r"]. *)
Definition both : fit model model :=
  Fit (tensor 2) (tensor 1) (tensor 0.5) (matrix 1)
      {[ "a" := 1%float; "r" := 0%float ]} {[ "a" := (0%float, 10%float) ]}
      {[ "a"; "r" ]}
      (Some bg) (Some fg) "minuit" gaussfit.

Definition w_both : W := World both [] tt.

(** The same fit with the point optimiser selected. *)
Definition w_minuit : W :=
  World (with_solver (FG:=model) (BG:=model) "minuit" self) [] tt.

(** The optimiser object of the toy engine: its vector of values. *)
Definition at_middle : @minuit W engines := [0.5%float].

(** A Gaussian fit with both models and two active names, each with its
    range. *)
Definition two : fit model model :=
  Fit (tensor 2) (tensor 1) (tensor 0.5) (matrix 1)
      {[ "a" := 1%float; "r" := 0%float ]}
      {[ "a" := (0%float, 10%float); "r" := (0%float, 1%float) ]}
      {[ "a"; "r" ]}
      (Some bg) (Some fg) "dynesty" gaussfit.

Definition w_two : W := World two [] tt.

(** The fit [self] with a background whose blacklist holds ["r"], and an
    active set left over from elsewhere. *)
Definition stale : fit model model :=
  Fit (tensor 2) (tensor 1) (tensor 0.5) (matrix 1)
      {[ "a" := 1%float; "r" := 0%float ]}
      {[ "a" := (0%float, 10%float); "r" := (0%float, 1%float) ]}
      {[ "zz"; "r" ]}
      (Some bg) (Some fg) "dynesty" gaussfit.

Definition w_stale : W := World stale [] tt.

End Toy.

(** * Properties *)

(** ** binary64 comparison and products, through the specification of the
       primitive operations *)

Lemma SFcompare_antisym (x y : spec_float) :
  SFcompare y x = option_map CompOpp (SFcompare x y).
Proof.
  destruct x as [sx|sx| |sx mx ex], y as [sy|sy| |sy my ey]; simpl;
    try reflexivity;
    try (destruct sx; reflexivity); try (destruct sy; reflexivity);
    try (destruct sx, sy; reflexivity).
  assert (Pos.compare_cont Eq mx my = CompOpp (Pos.compare_cont Eq my mx)) as Hm
    by (rewrite Pos.compare_cont_antisym; reflexivity).
  destruct sx, sy; simpl; try reflexivity;
    rewrite (Z.compare_antisym ey ex), Hm;
    destruct (ey ?= ex)%Z; simpl; try reflexivity;
    destruct (Pos.compare_cont Eq my mx); reflexivity.
Qed.

Lemma float_leb_not_ltb (x y : float) :
  (x <=? y)%float = true → (y <? x)%float = false.
Proof.
  rewrite leb_spec, ltb_spec. unfold SFleb, SFltb.
  rewrite (SFcompare_antisym (Prim2SF x) (Prim2SF y)).
  destruct (SFcompare (Prim2SF x) (Prim2SF y)) as [[]|]; simpl; congruence.
Qed.

Lemma SFcompare_refl (x : spec_float) :
  x ≠ S754_nan → SFcompare x x = Some Eq.
Proof.
  destruct x as [s|s| |s m e]; simpl; intros Hx; try congruence.
  - destruct s; reflexivity.
  - rewrite Z.compare_refl.
    assert (Pos.compare_cont Eq m m = Eq) as -> by apply Pos.compare_cont_refl.
    destruct s; reflexivity.
Qed.

Lemma is_nan_spec (x : float) : is_nan x = true ↔ Prim2SF x = S754_nan.
Proof.
  unfold is_nan. rewrite FloatAxioms.eqb_spec. unfold SFeqb. split.
  - intros H. destruct (Prim2SF x) eqn:E; [| |reflexivity|];
      rewrite SFcompare_refl in H by discriminate; discriminate.
  - intros ->. reflexivity.
Qed.

(** A product with a NaN factor is NaN. *)
Lemma is_nan_mul_r (c x : float) : is_nan x = true → is_nan (c * x) = true.
Proof.
  rewrite !is_nan_spec, mul_spec. intros ->.
  unfold SF64mul, SFmul. destruct (Prim2SF c); reflexivity.
Qed.

Lemma not_nan_mul_r (c x : float) : is_nan (c * x) = false → is_nan x = false.
Proof.
  intros H. destruct (is_nan x) eqn:E; [|done].
  by rewrite (is_nan_mul_r c x E) in H.
Qed.

(** The sentinels are the finite extremes of binary64. *)
Lemma nan_to_num_neg_inf : Np.nan_to_num (- Np.inf)%float = (- Np.float_max)%float.
Proof. reflexivity. Qed.

Lemma nan_to_num_inf : Np.nan_to_num Np.inf = Np.float_max.
Proof. reflexivity. Qed.

Lemma sentinels_finite :
  is_finite (Np.nan_to_num (- Np.inf)%float) = true
  ∧ is_finite (Np.nan_to_num Np.inf) = true
  ∧ Np.isnan (Np.nan_to_num (- Np.inf)%float) = false
  ∧ Np.isnan (Np.nan_to_num Np.inf) = false.
Proof. repeat split; reflexivity. Qed.

(** ** The guard of the objective *)

Lemma guard_off_unit (cube : list float) :
  Exists off_unit cube → Np.any_gt cube 1 || Np.any_lt cube 0 = true.
Proof.
  intros Hex. apply Exists_exists in Hex as (c & Hin & [Hc|Hc]).
  - apply orb_true_iff. left. apply existsb_exists. exists c.
    split; [by apply list_elem_of_In|done].
  - apply orb_true_iff. right. apply existsb_exists. exists c.
    split; [by apply list_elem_of_In|done].
Qed.

Lemma guard_in_unit (cube : list float) :
  Forall in_unit cube → Np.any_gt cube 1 || Np.any_lt cube 0 = false.
Proof.
  intros Hall. apply orb_false_iff.
  split; apply not_true_is_false; intros Hex;
    apply existsb_exists in Hex as (c & Hin & Hc);
    apply list_elem_of_In in Hin;
    rewrite Forall_forall in Hall; destruct (Hall c Hin) as [H0 H1].
  - apply float_leb_not_ltb in H1. congruence.
  - apply float_leb_not_ltb in H0. congruence.
Qed.

Section Properties.

Context {FG BG Ext : Type}.
Context `{!ModelAdapter FG} `{!ModelAdapter BG} `{!Aux} `{!Numpy}.
Context `{!Engines (world FG BG Ext)}.

Abbreviation fitobj := (fit FG BG).
Abbreviation W := (world FG BG Ext).

(** ** Outside the unit cube *)

(** C2: when some cube coordinate is greater than 1 or less than 0,
    [_core_likelihood] returns [nan_to_num(-inf)] and [_core_lsq] returns
    [nan_to_num(+inf)]; these are the finite extremes of binary64 and not NaN;
    the state is left as it was, so no model is reset or asked for its
    band-power and no statistic is evaluated (the call trace is unchanged). *)
Theorem core_off_cube_sentinel (cube : list float) (w : W) :
  Exists off_unit cube →
  _core_likelihood cube w = (Ok (Np.nan_to_num (- Np.inf)%float), w)
  ∧ _core_lsq cube w = (Ok (Np.nan_to_num Np.inf), w)
  ∧ Np.nan_to_num (- Np.inf)%float = (- Np.float_max)%float
  ∧ Np.nan_to_num Np.inf = Np.float_max
  ∧ is_finite (Np.nan_to_num (- Np.inf)%float) = true
  ∧ is_finite (Np.nan_to_num Np.inf) = true
  ∧ Np.isnan (Np.nan_to_num (- Np.inf)%float) = false
  ∧ Np.isnan (Np.nan_to_num Np.inf) = false.
Proof.
  intros Hoff. pose proof (guard_off_unit cube Hoff) as Hguard.
  unfold _core_likelihood, _core_lsq. rewrite Hguard.
  repeat split; reflexivity.
Qed.

(** ** The two forms of the statistic *)

Ltac run_result_binds :=
  unfold mbind, result_bind;
  repeat (case_match; simplify_eq; simpl in *; try reflexivity; try congruence).

Lemma lsq_statistic (self : fitobj) (predicted : ndarray) :
  lsq self predicted =
    (chi ← statistic self predicted;
     Ok (if Np.isnan chi then Np.nan_to_num Np.inf else chi)).
Proof.
  unfold lsq, statistic, residual, weighted, gaussfit_lsq, hlfit_lsq.
  destruct (_class self); simpl; [reflexivity| |]; run_result_binds.
Qed.

Lemma loglikeli_statistic (self : fitobj) (predicted : ndarray) :
  loglikeli self predicted =
    (chi ← statistic self predicted;
     Ok (if Np.isnan (-0.5 * chi)%float then Np.nan_to_num (- Np.inf)%float
         else (-0.5 * chi)%float)).
Proof.
  unfold loglikeli, statistic, residual, weighted, gaussfit_loglikeli, hlfit_loglikeli.
  destruct (_class self); simpl; [reflexivity| |]; run_result_binds.
Qed.

(** C3: for both variants the two forms are built from one statistic
    (same shape check, same residual, same covariance-weighted reduction):
    [lsq] returns it and [loglikeli] returns -0.5 times it, each with its own
    NaN clamp; so, on a predicted tensor of the data's shape for which
    neither clamp is hit, [loglikeli(predicted) = -0.5 * lsq(predicted)]. *)
Theorem loglikeli_is_minus_half_lsq (self : fitobj) (predicted : ndarray) (chi : float) :
  shape predicted = shape (_data self) →
  statistic self predicted = Ok chi →
  Np.isnan chi = false →
  Np.isnan (-0.5 * chi)%float = false →
  ∃ c l, lsq self predicted = Ok c
         ∧ loglikeli self predicted = Ok l
         ∧ c = chi
         ∧ l = (-0.5 * c)%float.
Proof.
  intros _ Hstat Hc Hl. exists chi, (-0.5 * chi)%float.
  rewrite lsq_statistic, loglikeli_statistic, Hstat. simpl.
  rewrite Hc, Hl. done.
Qed.

(** C4: for both variants, [loglikeli] and [lsq] fail on the shape assertion
    when [predicted.shape] differs from [data.shape]; they raise
    [ValueError('encounter nan')] when the residual vector contains a NaN; and
    when the residual is free of NaN and the covariance-weighted statistic
    is NaN, [loglikeli] returns the finite [nan_to_num(-inf)] and [lsq] the
    finite [nan_to_num(+inf)]. *)
Theorem statistic_failures_and_clamp (self : fitobj) (predicted : ndarray) :
  _class self ≠ basefit →
  (shape predicted ≠ shape (_data self) →
     loglikeli self predicted = Raise AssertionError
     ∧ lsq self predicted = Raise AssertionError)
  ∧ (∀ diff,
       shape predicted = shape (_data self) →
       residual self predicted = Ok diff →
       Np.any_isnan diff = true →
       loglikeli self predicted = Raise (ValueError "encounter nan")
       ∧ lsq self predicted = Raise (ValueError "encounter nan"))
  ∧ (∀ diff chi,
       shape predicted = shape (_data self) →
       residual self predicted = Ok diff →
       Np.any_isnan diff = false →
       weighted self diff = Ok chi →
       Np.isnan chi = true →
       loglikeli self predicted = Ok (Np.nan_to_num (- Np.inf)%float)
       ∧ lsq self predicted = Ok (Np.nan_to_num Np.inf)
       ∧ is_finite (Np.nan_to_num (- Np.inf)%float) = true
       ∧ is_finite (Np.nan_to_num Np.inf) = true).
Proof.
  intros Hcls. rewrite loglikeli_statistic, lsq_statistic.
  unfold statistic. destruct (_class self) eqn:Ecls; [done| |];
    (split; [|split]).
  all: try (intros Hshape; rewrite decide_False by done; done).
  all: try (intros diff Hshape Hres Hnan; rewrite decide_True by done;
            rewrite Hres; simpl; rewrite Hnan; done).
  all: intros diff chi Hshape Hres Hnan Hw Hchi; rewrite decide_True by done;
    rewrite Hres; simpl; rewrite Hnan, Hw; simpl.
  all: unfold Np.isnan in *; rewrite (is_nan_mul_r _ chi Hchi), Hchi; done.
Qed.

(** ** Inside the unit cube *)

Lemma push_parameter_paramrange (w : W) (nv : string * float) :
  _paramrange (this (push_parameter w nv)) = _paramrange (this w).
Proof. reflexivity. Qed.

Lemma push_parameter_activelist (w : W) (nv : string * float) :
  _activelist (this (push_parameter w nv)) = _activelist (this w).
Proof. reflexivity. Qed.

Lemma reset_step_push (name_list : list string) (cube : list float) (i : nat)
    (w : W) (name : string) (c : float) (r : float * float) :
  name_list !! i = Some name →
  cube !! i = Some c →
  _paramrange (this w) !! name = Some r →
  reset_step name_list cube i w = (Ok tt, push_parameter w (name, umap c r)).
Proof.
  intros Hn Hc Hr. unfold reset_step, index, getitem, lift, get_this.
  unfold mbind, Py_bind. rewrite Hn, Hc. simpl. rewrite Hr. simpl.
  unfold fg_reset, bg_reset, push_parameter.
  destruct w as [self tr e]. destruct self. simpl.
  destruct _foreground0, _background0; simpl;
    rewrite ?app_nil_r, <- ?app_assoc; reflexivity.
Qed.

Lemma reset_loop_push (name_list : list string) (full : list float) :
  ∀ (names : list string) (cube : list float) (k : nat) (w : W)
    (values : list (string * float)),
    (∀ j, names !! j = name_list !! (k + j)) →
    (∀ j, cube !! j = full !! (k + j)) →
    physical_values (_paramrange (this w)) names cube = Ok values →
    for_each (seq k (length names)) (reset_step name_list full) w
    = (Ok tt, foldl push_parameter w values).
Proof.
  induction names as [|name names IH]; intros cube k w values Hnames Hcube Hval.
  - simpl in *. by simplify_eq.
  - destruct cube as [|c cube]; [done|]. simpl in Hval.
    destruct (getitem (_paramrange (this w)) name) as [r|] eqn:Hr; [|done].
    simpl in Hval.
    destruct (physical_values (_paramrange (this w)) names cube) as [rest|] eqn:Hrest;
      [|done].
    simpl in Hval. simplify_eq. simpl.
    unfold mbind at 1, Py_bind.
    rewrite (reset_step_push name_list full k w name c r).
    + apply (IH cube).
      * intros j. specialize (Hnames (S j)). simpl in Hnames.
        rewrite Hnames. f_equal. lia.
      * intros j. specialize (Hcube (S j)). simpl in Hcube.
        rewrite Hcube. f_equal. lia.
      * by rewrite push_parameter_paramrange.
    + specialize (Hnames 0). simpl in Hnames. rewrite Nat.add_0_r in Hnames. done.
    + specialize (Hcube 0). simpl in Hcube. rewrite Nat.add_0_r in Hcube. done.
    + unfold getitem in Hr. by destruct (_ !! name); simplify_eq.
Qed.

Lemma physical_values_names (pr : gmap string (float * float)) :
  ∀ (names : list string) (cube : list float) (values : list (string * float)),
    physical_values pr names cube = Ok values → values.*1 = names.
Proof.
  induction names as [|name names IH]; intros cube values Hval.
  - simpl in Hval. by simplify_eq.
  - destruct cube as [|c cube]; [done|]. simpl in Hval.
    destruct (getitem pr name) as [r|]; [|done]. simpl in Hval.
    destruct (physical_values pr names cube) as [rest|] eqn:Hrest; [|done].
    simpl in Hval. simplify_eq. simpl. f_equal. by apply (IH cube).
Qed.

(** Every name with a cube coordinate and a declared range has a physical
    value. *)
Lemma physical_values_total (pr : gmap string (float * float)) :
  ∀ (names : list string) (cube : list float),
    length names ≤ length cube →
    (∀ name, name ∈ names → is_Some (pr !! name)) →
    ∃ values, physical_values pr names cube = Ok values.
Proof.
  induction names as [|name names IH]; intros cube Hlen Hpr.
  - by exists [].
  - destruct cube as [|c cube]; [simpl in Hlen; lia|].
    destruct (Hpr name) as [r Hr]; [left|].
    destruct (IH cube) as [rest Hrest].
    + simpl in Hlen. lia.
    + intros n Hn. apply Hpr. by right.
    + exists ((name, umap c r) :: rest). simpl. unfold getitem. rewrite Hr. simpl.
      rewrite Hrest. reflexivity.
Qed.

(** The value of the i-th name is [umap] of the i-th coordinate with the
    range of that name. *)
Lemma physical_values_lookup (pr : gmap string (float * float)) :
  ∀ (names : list string) (cube : list float) (values : list (string * float))
    (i : nat) (name : string) (v : float),
    physical_values pr names cube = Ok values →
    values !! i = Some (name, v) →
    names !! i = Some name
    ∧ ∃ c r, cube !! i = Some c ∧ pr !! name = Some r ∧ v = umap c r.
Proof.
  induction names as [|n names IH]; intros cube values i name v Hval Hi.
  - simpl in Hval. by simplify_eq.
  - destruct cube as [|c cube]; [done|]. simpl in Hval.
    destruct (getitem pr n) as [r|] eqn:Hr; [|done]. simpl in Hval.
    destruct (physical_values pr names cube) as [rest|] eqn:Hrest; [|done].
    simpl in Hval. simplify_eq. destruct i as [|i]; simpl in *.
    + simplify_eq. split; [done|]. exists c, r. repeat split.
      unfold getitem in Hr. by destruct (pr !! name); simplify_eq.
    + by apply (IH cube rest).
Qed.

Lemma _core_likelihood_steps (cube : list float) :
  (_core_likelihood cube : Py W float) =
    if Np.any_gt cube 1 || Np.any_lt cube 0 then
      mret (Np.nan_to_num (- Np.inf)%float)
    else
      self ← get_this;
      for_each (seq 0 (length (sorted (_activelist self))))
               (reset_step (sorted (_activelist self)) cube);;
      predict_step loglikeli_method.
Proof. reflexivity. Qed.

Lemma _core_lsq_steps (cube : list float) :
  (_core_lsq cube : Py W float) =
    if Np.any_gt cube 1 || Np.any_lt cube 0 then
      mret (Np.nan_to_num Np.inf)
    else
      self ← get_this;
      for_each (seq 0 (length (sorted (_activelist self))))
               (reset_step (sorted (_activelist self)) cube);;
      predict_step lsq_method.
Proof. reflexivity. Qed.

Lemma predict_step_loglikeli (w : W) :
  predict_step loglikeli_method w = predict_and_evaluate LogLikelihood w.
Proof.
  unfold predict_step, predict_and_evaluate, loglikeli_method, prediction,
    prediction_calls, when_attached, fg_bandpower, bg_bandpower, call_loglikeli,
    get_this, lift, mbind, Py_bind.
  destruct w as [self tr e]. destruct self. simpl.
  destruct _class0, _foreground0, _background0; simpl; try reflexivity;
    try (destruct (nd_add _ _); simpl);
    rewrite <- ?app_assoc, ?app_nil_r; reflexivity.
Qed.

Lemma predict_step_lsq (w : W) :
  predict_step lsq_method w = predict_and_evaluate ChiSquare w.
Proof.
  unfold predict_step, predict_and_evaluate, lsq_method, prediction,
    prediction_calls, when_attached, fg_bandpower, bg_bandpower, call_lsq,
    get_this, lift, mbind, Py_bind.
  destruct w as [self tr e]. destruct self. simpl.
  destruct _class0, _foreground0, _background0; simpl; try reflexivity;
    try (destruct (nd_add _ _); simpl);
    rewrite <- ?app_assoc, ?app_nil_r; reflexivity.
Qed.

Lemma sorted_names (names : gset string) :
  StronglySorted String.le (sorted names)
  ∧ NoDup (sorted names)
  ∧ ∀ name, name ∈ sorted names ↔ name ∈ names.
Proof.
  unfold sorted. split; [|split].
  - apply (StronglySorted_merge_sort _).
  - rewrite merge_sort_Permutation. apply NoDup_elements.
  - intros name. rewrite merge_sort_Permutation. apply elem_of_elements.
Qed.

Lemma reset_calls_attached (f : FG → FG) (g : BG → BG) (fg : option FG)
    (bg : option BG) (values : list (string * float)) :
  reset_calls (f <$> fg) (g <$> bg) values = reset_calls fg bg values.
Proof.
  destruct fg, bg; induction values as [|nv rest IH]; simpl in *; congruence.
Qed.

(** The pushes of a list of values, read off the fields of the state. *)
Lemma push_all_reset (values : list (string * float)) :
  ∀ w : W,
    models_reset values w (foldl push_parameter w values)
    ∧ trace (foldl push_parameter w values)
      = trace w ++ reset_calls (_foreground (this w)) (_background (this w)) values.
Proof.
  induction values as [|nv rest IH]; intros w.
  - simpl. rewrite app_nil_r. split; [|done].
    unfold models_reset, reset_all. simpl.
    destruct (_foreground (this w)), (_background (this w)); by split_and!.
  - simpl. destruct (IH (push_parameter w nv))
      as ((Hf&Hb&Hd&Hfi&Hn&Hc&Hp&Hr&Ha&Hs&Hcl&He) & Ht).
    split.
    + unfold models_reset. rewrite Hf, Hb, Hd, Hfi, Hn, Hc, Hp, Hr, Ha, Hs, Hcl, He.
      simpl. destruct (_foreground (this w)), (_background (this w)); by split_and!.
    + rewrite Ht. simpl.
      rewrite (reset_calls_attached _ _ (_foreground (this w)) (_background (this w))).
      by rewrite <- !app_assoc.
Qed.

Lemma objective_evaluated (form : statistic_form) (values : list (string * float))
    (w : W) :
  evaluated form values w (objective form values w).
Proof.
  unfold evaluated, objective, predict_and_evaluate.
  destruct (push_all_reset values w)
    as ((Hf&Hb&Hd&Hfi&Hn&Hc&Hp&Hr&Ha&Hs&Hcl&He) & Ht).
  set (w1 := foldl push_parameter w values) in *.
  rewrite <- Hcl, <- Hf, <- Hb.
  assert (∀ tr, models_reset values w (World (this w1) tr (ext w1))) as Hm.
  { intros tr. unfold models_reset. simpl. by split_and!. }
  destruct (_class (this w1)); simpl.
  - split; [|done]. destruct w1; by apply Hm.
  - destruct (prediction _ _); simpl; (split; [apply Hm|]);
      by rewrite Ht, <- ?app_assoc.
  - destruct (prediction _ _); simpl; (split; [apply Hm|]);
      by rewrite Ht, <- ?app_assoc.
Qed.

(** C1: on a cube point with every coordinate in [0,1], [_core_likelihood]
    and [_core_lsq] take the active names in sorted order, give the i-th name
    the value [umap(cube[i], range of that name)], call [reset({name: value})]
    on every attached model (foreground, then background), form the
    prediction as the sum of the two band-powers when both models are
    attached and as the lone model's band-power otherwise, and return
    [loglikeli] resp. [lsq] of that prediction.  The last conjunct reads
    this off the outcome itself: the models in the final state are the
    models reset with the values in order, every other field is as before,
    the calls made are the resets, the band-powers and the statistic, and
    the value returned is the statistic of the reset models' prediction. *)
Theorem core_in_cube (cube : list float) (w : W) (values : list (string * float)) :
  Forall in_unit cube →
  physical_values (_paramrange (this w)) (sorted (_activelist (this w))) cube
    = Ok values →
  _core_likelihood cube w = objective LogLikelihood values w
  ∧ _core_lsq cube w = objective ChiSquare values w
  ∧ values.*1 = sorted (_activelist (this w))
  ∧ StronglySorted String.le (values.*1)
  ∧ (∀ name, name ∈ values.*1 ↔ name ∈ _activelist (this w))
  ∧ (∀ i name v, values !! i = Some (name, v) →
       ∃ c r, cube !! i = Some c
              ∧ _paramrange (this w) !! name = Some r
              ∧ v = umap c r)
  ∧ (∀ form, evaluated form values w (entry_point form cube w)).
Proof.
  intros Hcube Hval.
  pose proof (guard_in_unit cube Hcube) as Hguard.
  pose proof (physical_values_names _ _ _ _ Hval) as Hnames.
  pose proof (sorted_names (_activelist (this w))) as (Hsorted & _ & Hmem).
  assert (for_each (seq 0 (length (sorted (_activelist (this w)))))
            (reset_step (sorted (_activelist (this w))) cube) w
          = (Ok tt, foldl push_parameter w values)) as Hloop.
  { apply (reset_loop_push _ _ _ cube); [done|done|done]. }
  assert (_core_likelihood cube w = objective LogLikelihood values w) as Hll.
  { rewrite _core_likelihood_steps, Hguard.
    unfold mbind, Py_bind, get_this. rewrite Hloop.
    apply predict_step_loglikeli. }
  assert (_core_lsq cube w = objective ChiSquare values w) as Hlsq.
  { rewrite _core_lsq_steps, Hguard.
    unfold mbind, Py_bind, get_this. rewrite Hloop.
    apply predict_step_lsq. }
  split_and!.
  - exact Hll.
  - exact Hlsq.
  - done.
  - by rewrite Hnames.
  - intros name. by rewrite Hnames.
  - intros i name v Hi.
    destruct (physical_values_lookup _ _ _ _ _ _ _ Hval Hi) as (_ & c & r & ?).
    by exists c, r.
  - intros [|]; simpl; [rewrite Hll|rewrite Hlsq]; apply objective_evaluated.
Qed.

(** ** The active-parameter set *)

Lemma run_dispatch (kwargs : gmap string Z) (w : W) :
  run kwargs w =
    dispatch kwargs
      (World (with_activelist (active_parameters (this w)) (this w)) (trace w) (ext w)).
Proof.
  unfold run, dispatch, active_parameters, set_activelist, get_this, mbind, Py_bind,
    mret, Py_ret.
  destruct w as [self tr e]. destruct self. simpl.
  destruct _background0, _foreground0; simpl; rewrite ?difference_empty_L; reflexivity.
Qed.

Lemma active_parameters_spec (self : fitobj) (name : string) :
  name ∈ active_parameters self ↔
    name ∈ dom (_params self)
    ∧ (∀ bg, _background self = Some bg → name ∉ blacklist bg)
    ∧ (∀ fg, _foreground self = Some fg → name ∉ blacklist fg).
Proof.
  unfold active_parameters. rewrite !elem_of_difference. split.
  - intros [[Hdom Hbg] Hfg]. split; [done|]. split.
    + intros bg Ebg. rewrite Ebg in Hbg. by rewrite elem_of_list_to_set in Hbg.
    + intros fg Efg. rewrite Efg in Hfg. by rewrite elem_of_list_to_set in Hfg.
  - intros (Hdom & Hbg & Hfg). split; [split; [done|]|].
    + destruct (_background self) as [bg|]; [|set_solver].
      rewrite elem_of_list_to_set. by apply Hbg.
    + destruct (_foreground self) as [fg|]; [|set_solver].
      rewrite elem_of_list_to_set. by apply Hfg.
Qed.

Lemma same_but_activelist_dispatch (w w0 : W) :
  same_but_activelist w w0 →
  World (with_activelist (active_parameters (this w0)) (this w0)) (trace w0) (ext w0)
  = World (with_activelist (active_parameters (this w)) (this w)) (trace w) (ext w).
Proof.
  intros (?&?&?&?&?&?&?&?&?&?&?&?).
  destruct w as [self tr e], w0 as [self0 tr0 e0]. destruct self, self0.
  unfold active_parameters. simpl in *. by subst.
Qed.

Lemma recomputed_state (w : W) :
  let w' := World (with_activelist (active_parameters (this w)) (this w))
                  (trace w) (ext w) in
  _activelist (this w') = active_parameters (this w) ∧ same_but_activelist w w'.
Proof. by repeat split. Qed.

(** C7: every [run] first sets the active-parameter set to the merged
    parameter names minus the blacklist of each attached model, and only
    then dispatches to the selected solver: the state [w'] the solver is
    started in has that set in its [_activelist] field and is otherwise the
    state [run] was called in; the set holds a name exactly when the name
    is a merged parameter that no attached model blacklists; and nothing is
    carried over: from two states that differ in the active set only, [run]
    does the same. *)
Theorem run_recomputes_activelist (kwargs : gmap string Z) (w : W) :
  (∃ w' : W,
     run kwargs w = dispatch kwargs w'
     ∧ _activelist (this w') = active_parameters (this w)
     ∧ same_but_activelist w w'
     ∧ (∀ name,
          name ∈ _activelist (this w') ↔
            name ∈ dom (_params (this w))
            ∧ (∀ bg, _background (this w) = Some bg → name ∉ blacklist bg)
            ∧ (∀ fg, _foreground (this w) = Some fg → name ∉ blacklist fg)))
  ∧ (∀ w0 : W, same_but_activelist w w0 → run kwargs w0 = run kwargs w).
Proof.
  split.
  - eexists. split; [apply run_dispatch|].
    destruct (recomputed_state w) as [Hact Hsame].
    split; [exact Hact|]. split; [exact Hsame|].
    intros name. rewrite Hact. apply active_parameters_spec.
  - intros w0 Hsame. rewrite !run_dispatch.
    by rewrite (same_but_activelist_dispatch w w0 Hsame).
Qed.

(** ** The model setters *)

Lemma foreground_setter_dom (fg : option FG) (self : fitobj) :
  dom (_params self) ⊆ dom (_params (foreground_setter fg self))
  ∧ dom (_paramrange self) ⊆ dom (_paramrange (foreground_setter fg self))
  ∧ _background (foreground_setter fg self) = _background self
  ∧ _foreground (foreground_setter fg self) = fg.
Proof.
  destruct fg as [m|]; simpl; unfold dict_update; rewrite ?dom_union_L;
    repeat split; set_solver.
Qed.

Lemma background_setter_dom (bg : option BG) (self : fitobj) :
  dom (_params self) ⊆ dom (_params (background_setter bg self))
  ∧ dom (_paramrange self) ⊆ dom (_paramrange (background_setter bg self))
  ∧ _foreground (background_setter bg self) = _foreground self
  ∧ _background (background_setter bg self) = bg.
Proof.
  destruct bg as [m|]; simpl; unfold dict_update; rewrite ?dom_union_L;
    repeat split; set_solver.
Qed.

Lemma foreground_setter_merges (m : FG) (self : fitobj) :
  dom (params m) ⊆ dom (_params (foreground_setter (Some m) self))
  ∧ dom (paramrange m) ⊆ dom (_paramrange (foreground_setter (Some m) self)).
Proof. simpl. unfold dict_update. rewrite !dom_union_L. set_solver. Qed.

Lemma background_setter_merges (m : BG) (self : fitobj) :
  dom (params m) ⊆ dom (_params (background_setter (Some m) self))
  ∧ dom (paramrange m) ⊆ dom (_paramrange (background_setter (Some m) self)).
Proof. simpl. unfold dict_update. rewrite !dom_union_L. set_solver. Qed.

(** C10: the model setters only merge the model's [params] and [paramrange]
    into the fit's dictionaries and never remove an entry; so after a model
    is replaced (by another model or by [None]) every name the previous
    model contributed is still in the merged parameter set and range
    dictionary, and the next [run] makes it active exactly when no
    currently attached model blacklists it: it is in the [_activelist]
    field of the state the solver is started in. *)
Theorem setters_only_merge (self : fitobj) :
  (∀ fg, dom (_params self) ⊆ dom (_params (foreground_setter fg self))
         ∧ dom (_paramrange self) ⊆ dom (_paramrange (foreground_setter fg self)))
  ∧ (∀ bg, dom (_params self) ⊆ dom (_params (background_setter bg self))
           ∧ dom (_paramrange self) ⊆ dom (_paramrange (background_setter bg self)))
  ∧ (∀ (old : FG) (new : option FG),
       let self' := foreground_setter new (foreground_setter (Some old) self) in
       dom (params old) ⊆ dom (_params self')
       ∧ dom (paramrange old) ⊆ dom (_paramrange self')
       ∧ (∀ kwargs (tr : list call) (e : Ext), ∃ w' : W,
            run kwargs (World self' tr e) = dispatch kwargs w'
            ∧ same_but_activelist (World self' tr e) w'
            ∧ ∀ name, name ∈ dom (params old) →
                name ∈ _activelist (this w') ↔
              (∀ bg, _background self = Some bg → name ∉ blacklist bg)
              ∧ (∀ fg, new = Some fg → name ∉ blacklist fg)))
  ∧ (∀ (old : BG) (new : option BG),
       let self' := background_setter new (background_setter (Some old) self) in
       dom (params old) ⊆ dom (_params self')
       ∧ dom (paramrange old) ⊆ dom (_paramrange self')
       ∧ (∀ kwargs (tr : list call) (e : Ext), ∃ w' : W,
            run kwargs (World self' tr e) = dispatch kwargs w'
            ∧ same_but_activelist (World self' tr e) w'
            ∧ ∀ name, name ∈ dom (params old) →
                name ∈ _activelist (this w') ↔
              (∀ bg, new = Some bg → name ∉ blacklist bg)
              ∧ (∀ fg, _foreground self = Some fg → name ∉ blacklist fg))).
Proof.
  split; [|split; [|split]].
  - intros fg. by destruct (foreground_setter_dom fg self) as (? & ? & _).
  - intros bg. by destruct (background_setter_dom bg self) as (? & ? & _).
  - intros old new self'.
    pose proof (foreground_setter_merges old self) as [Hp Hr].
    pose proof (foreground_setter_dom new (foreground_setter (Some old) self))
      as (Hp' & Hr' & Hbg & Hfg).
    pose proof (foreground_setter_dom (Some old) self) as (_ & _ & Hbg0 & _).
    assert (dom (params old) ⊆ dom (_params self')) as Hin by set_solver.
    split; [done|]. split; [by etrans|].
    intros kwargs tr e. eexists. split; [apply run_dispatch|].
    destruct (recomputed_state (World self' tr e)) as [Hact Hsame].
    split; [exact Hsame|]. intros name Hname. rewrite Hact. simpl.
    rewrite active_parameters_spec.
    fold self' in Hbg, Hfg. rewrite Hbg, Hbg0, Hfg.
    split; [by intros (_ & ? & ?)|].
    intros [? ?]. split; [|done].
    by apply (proj1 (elem_of_subseteq _ _) Hin).
  - intros old new self'.
    pose proof (background_setter_merges old self) as [Hp Hr].
    pose proof (background_setter_dom new (background_setter (Some old) self))
      as (Hp' & Hr' & Hfg & Hbg).
    pose proof (background_setter_dom (Some old) self) as (_ & _ & Hfg0 & _).
    assert (dom (params old) ⊆ dom (_params self')) as Hin by set_solver.
    split; [done|]. split; [by etrans|].
    intros kwargs tr e. eexists. split; [apply run_dispatch|].
    destruct (recomputed_state (World self' tr e)) as [Hact Hsame].
    split; [exact Hsame|]. intros name Hname. rewrite Hact. simpl.
    rewrite active_parameters_spec.
    fold self' in Hbg, Hfg. rewrite Hbg, Hfg, Hfg0.
    split; [by intros (_ & ? & ?)|].
    intros [? ?]. split; [|done].
    by apply (proj1 (elem_of_subseteq _ _) Hin).
Qed.

(** ** Construction *)

Lemma data_setter_Ok (a a' : ndarray) :
  data_setter a = Ok a' ↔ valid_tensor a ∧ a' = a.
Proof.
  unfold data_setter, valid_tensor.
  destruct (decide (ndim a = 4)), (isnan_any a); naive_solver.
Qed.

Lemma fiducial_setter_Ok (a a' : ndarray) :
  fiducial_setter a = Ok a' ↔ valid_tensor a ∧ a' = a.
Proof.
  unfold fiducial_setter, valid_tensor.
  destruct (decide (ndim a = 4)), (isnan_any a); naive_solver.
Qed.

Lemma noise_setter_Ok (a a' : ndarray) :
  noise_setter a = Ok a' ↔ valid_tensor a ∧ a' = a.
Proof.
  unfold noise_setter, valid_tensor.
  destruct (decide (ndim a = 4)), (isnan_any a); naive_solver.
Qed.

Lemma covariance_setter_Ok (a a' : ndarray) :
  covariance_setter a = Ok a' ↔ valid_covariance a ∧ a' = a.
Proof.
  unfold covariance_setter, valid_covariance.
  destruct (decide (ndim a = 2)), (decide (shape a !! 0 = shape a !! 1)),
    (isnan_any a); naive_solver.
Qed.

Lemma solver_setter_Ok (s s' : string) :
  solver_setter s = Ok s' ↔ valid_solver s ∧ s' = s.
Proof.
  unfold solver_setter, valid_solver.
  destruct (decide (s ∈ ["minuit"; "dynesty"; "emcee"])); naive_solver.
Qed.

Lemma offset_setter_Ok (noise : ndarray) (offset : option ndarray) (o' : ndarray) :
  offset_setter noise offset = Ok o' ↔
    valid_offset noise offset ∧ o' = default (zeros_like noise float32) offset.
Proof.
  unfold offset_setter, valid_offset. destruct offset as [o|]; simpl.
  - destruct (decide (shape o = shape noise)), (isnan_any o); naive_solver.
  - naive_solver.
Qed.

Lemma fit_init_Ok (cls : variant) (d f n c : ndarray) (bg : option BG)
    (fg : option FG) (s : string) (self : fitobj) :
  fit_init cls d f n c bg fg s = Ok self ↔
    valid_tensor d ∧ valid_tensor f ∧ valid_tensor n ∧ valid_covariance c
    ∧ (is_Some bg ∨ is_Some fg) ∧ valid_solver s
    ∧ self = constructed cls d f n c bg fg s.
Proof.
  unfold fit_init, constructed.
  destruct (data_setter d) as [d'|] eqn:Ed; simpl.
  2:{ split; [done|]. intros (Hv & _).
      assert (data_setter d = Ok d) by (by apply data_setter_Ok). congruence. }
  apply data_setter_Ok in Ed as [Hvd ->].
  destruct (fiducial_setter f) as [f'|] eqn:Ef; simpl.
  2:{ split; [done|]. intros (_ & Hv & _).
      assert (fiducial_setter f = Ok f) by (by apply fiducial_setter_Ok). congruence. }
  apply fiducial_setter_Ok in Ef as [Hvf ->].
  destruct (noise_setter n) as [n'|] eqn:En; simpl.
  2:{ split; [done|]. intros (_ & _ & Hv & _).
      assert (noise_setter n = Ok n) by (by apply noise_setter_Ok). congruence. }
  apply noise_setter_Ok in En as [Hvn ->].
  destruct (covariance_setter c) as [c'|] eqn:Ec; simpl.
  2:{ split; [done|]. intros (_ & _ & _ & Hv & _).
      assert (covariance_setter c = Ok c) by (by apply covariance_setter_Ok).
      congruence. }
  apply covariance_setter_Ok in Ec as [Hvc ->].
  destruct (foreground_setter_dom fg
              (background_setter bg (Fit d f n c ∅ ∅ ∅ None None "" cls)))
    as (_ & _ & Ebg & Efg).
  destruct (background_setter_dom bg (Fit d f n c ∅ ∅ ∅ None None "" cls))
    as (_ & _ & _ & Ebg').
  rewrite Efg, Ebg, Ebg'. clear Efg Ebg Ebg'.
  destruct (solver_setter s) as [s'|] eqn:Es.
  - apply solver_setter_Ok in Es as [Hvs ->].
    destruct fg as [mf|], bg as [mb|]; simpl.
    4:{ split; [done|]. by intros (_ & _ & _ & _ & [[? ?]|[? ?]] & _). }
    all: split; [|by intros (_&_&_&_&_&_&->)].
    all: intros; simplify_eq; do 4 (split; [done|]).
    all: split; [first [left; by eexists | right; by eexists]|done].
  - assert (¬ valid_solver s) as Hns.
    { intros Hv. assert (solver_setter s = Ok s) by (by apply solver_setter_Ok).
      congruence. }
    destruct fg as [mf|], bg as [mb|]; simpl;
      (split; [done|]); by intros (_&_&_&_&_&?&_).
Qed.

Lemma constructed_noise (cls : variant) (d f n c : ndarray) (bg : option BG)
    (fg : option FG) (s : string) :
  _noise (constructed cls d f n c bg fg s) = n.
Proof. destruct bg, fg; reflexivity. Qed.

Lemma hlfit_init_Ok (d f n c : ndarray) (bg : option BG) (fg : option FG)
    (s : string) (offset : option ndarray) (self : fitobj) :
  hlfit_init d f n c bg fg s offset = Ok self ↔
    valid_tensor d ∧ valid_tensor f ∧ valid_tensor n ∧ valid_covariance c
    ∧ (is_Some bg ∨ is_Some fg) ∧ valid_solver s ∧ valid_offset n offset
    ∧ self = with_class (hlfit (default (zeros_like n float32) offset))
               (constructed (hlfit (zeros_like n float32)) d f n c bg fg s).
Proof.
  unfold hlfit_init.
  destruct (fit_init (hlfit (zeros_like n float32)) d f n c bg fg s) as [self0|] eqn:E0; simpl.
  - apply fit_init_Ok in E0 as (?&?&?&?&?&?&->). rewrite constructed_noise.
    destruct (offset_setter n offset) as [o|] eqn:Eo; simpl.
    + apply offset_setter_Ok in Eo as [? ->]. split; [|by intros (_&_&_&_&_&_&_&->)].
      intros; simplify_eq. by do 7 (split; [done|]).
    + split; [done|]. intros (_&_&_&_&_&_&Hv&_).
      assert (offset_setter n offset = Ok (default (zeros_like n float32) offset))
        by (by apply offset_setter_Ok).
      congruence.
  - split; [done|]. intros (?&?&?&?&?&?&_).
    assert (fit_init (hlfit (zeros_like n float32)) d f n c bg fg s
            = Ok (constructed (hlfit (zeros_like n float32)) d f n c bg fg s))
      by (by apply fit_init_Ok).
    congruence.
Qed.

(** C9: constructing a fit, a [gaussfit] or an [hlfit] with both models
    absent fails, with [ValueError('no activated model')] once the tensors
    have passed their own checks; and that is the only requirement on the
    models: with valid tensors and a valid solver name the construction
    succeeds exactly when at least one model is attached. *)
Theorem init_requires_a_model (d f n c : ndarray) (s : string) :
  (∀ cls, ¬ is_Ok (fit_init cls d f n c (@None BG) (@None FG) s))
  ∧ ¬ is_Ok (gaussfit_init d f n c (@None BG) (@None FG) s)
  ∧ (∀ offset, ¬ is_Ok (hlfit_init d f n c (@None BG) (@None FG) s offset))
  ∧ (valid_tensor d → valid_tensor f → valid_tensor n → valid_covariance c →
       (∀ cls, fit_init cls d f n c (@None BG) (@None FG) s
               = Raise (ValueError "no activated model"))
       ∧ gaussfit_init d f n c (@None BG) (@None FG) s = Raise (ValueError "no activated model")
       ∧ (∀ offset, hlfit_init d f n c (@None BG) (@None FG) s offset
                    = Raise (ValueError "no activated model")))
  ∧ (∀ cls (bg : option BG) (fg : option FG),
       is_Ok (fit_init cls d f n c bg fg s) ↔
         valid_tensor d ∧ valid_tensor f ∧ valid_tensor n ∧ valid_covariance c
         ∧ (is_Some bg ∨ is_Some fg) ∧ valid_solver s)
  ∧ (∀ (bg : option BG) (fg : option FG),
       is_Ok (gaussfit_init d f n c bg fg s) ↔
         valid_tensor d ∧ valid_tensor f ∧ valid_tensor n ∧ valid_covariance c
         ∧ (is_Some bg ∨ is_Some fg) ∧ valid_solver s)
  ∧ (∀ (bg : option BG) (fg : option FG) offset,
       is_Ok (hlfit_init d f n c bg fg s offset) ↔
         valid_tensor d ∧ valid_tensor f ∧ valid_tensor n ∧ valid_covariance c
         ∧ (is_Some bg ∨ is_Some fg) ∧ valid_solver s ∧ valid_offset n offset).
Proof.
  assert (∀ cls (bg : option BG) (fg : option FG),
       is_Ok (fit_init cls d f n c bg fg s) ↔
         valid_tensor d ∧ valid_tensor f ∧ valid_tensor n ∧ valid_covariance c
         ∧ (is_Some bg ∨ is_Some fg) ∧ valid_solver s) as Hfit.
  { intros cls bg fg. split.
    - intros [self Hself]. pose proof (proj1 (fit_init_Ok _ _ _ _ _ _ _ _ _) Hself).
      tauto.
    - intros Hv. exists (constructed cls d f n c bg fg s). apply fit_init_Ok. tauto. }
  assert (∀ (bg : option BG) (fg : option FG) offset,
       is_Ok (hlfit_init d f n c bg fg s offset) ↔
         valid_tensor d ∧ valid_tensor f ∧ valid_tensor n ∧ valid_covariance c
         ∧ (is_Some bg ∨ is_Some fg) ∧ valid_solver s ∧ valid_offset n offset) as Hhl.
  { intros bg fg offset. split.
    - intros [self Hself]. pose proof (proj1 (hlfit_init_Ok _ _ _ _ _ _ _ _ _) Hself).
      tauto.
    - intros Hv. eexists. apply hlfit_init_Ok. split_and!; try tauto; reflexivity. }
  split_and!.
  - intros cls Hok. apply Hfit in Hok.
    destruct Hok as (_&_&_&_&[[? ?]|[? ?]]&_); done.
  - intros Hok. apply Hfit in Hok.
    destruct Hok as (_&_&_&_&[[? ?]|[? ?]]&_); done.
  - intros offset Hok. apply Hhl in Hok.
    destruct Hok as (_&_&_&_&[[? ?]|[? ?]]&_); done.
  - intros Hd Hf Hn Hc.
    assert (∀ cls, fit_init cls d f n c (@None BG) (@None FG) s
                   = Raise (ValueError "no activated model")) as Hraise.
    { intros cls. unfold fit_init.
      rewrite (proj2 (data_setter_Ok d d) (conj Hd eq_refl)).
      rewrite (proj2 (fiducial_setter_Ok f f) (conj Hf eq_refl)).
      rewrite (proj2 (noise_setter_Ok n n) (conj Hn eq_refl)).
      rewrite (proj2 (covariance_setter_Ok c c) (conj Hc eq_refl)).
      reflexivity. }
    split_and!; [done|apply Hraise|].
    intros offset. unfold hlfit_init. by rewrite Hraise.
  - done.
  - intros bg fg. apply Hfit.
  - done.
Qed.

(** C8, as the code has it: each setter checks its own tensor only (data,
    fiducial and noise: four dimensions and no NaN; covariance: two
    dimensions, square, no NaN) and fails at once when that check fails, on
    the assertion or with [ValueError('encounter nan')]; shapes are not
    compared across tensors, so with a model attached and a valid solver
    name the construction succeeds on any tensors that pass their own
    checks and stores them as given. *)
Theorem setters_check_each_tensor_alone :
  (∀ a, is_Ok (data_setter a) ↔ valid_tensor a)
  ∧ (∀ a, is_Ok (fiducial_setter a) ↔ valid_tensor a)
  ∧ (∀ a, is_Ok (noise_setter a) ↔ valid_tensor a)
  ∧ (∀ a, is_Ok (covariance_setter a) ↔ valid_covariance a)
  ∧ (∀ a, ¬ valid_tensor a →
       (data_setter a = Raise AssertionError
        ∨ data_setter a = Raise (ValueError "encounter nan"))
       ∧ (fiducial_setter a = Raise AssertionError
          ∨ fiducial_setter a = Raise (ValueError "encounter nan"))
       ∧ (noise_setter a = Raise AssertionError
          ∨ noise_setter a = Raise (ValueError "encounter nan")))
  ∧ (∀ a, ¬ valid_covariance a →
       covariance_setter a = Raise AssertionError
       ∨ covariance_setter a = Raise (ValueError "encounter nan"))
  ∧ (∀ cls d f n c (bg : option BG) (fg : option FG) s,
       valid_tensor d → valid_tensor f → valid_tensor n → valid_covariance c →
       is_Some bg ∨ is_Some fg → valid_solver s →
       ∃ self : fitobj,
         fit_init cls d f n c bg fg s = Ok self
         ∧ _data self = d ∧ _fiducial self = f ∧ _noise self = n
         ∧ _covariance self = c).
Proof.
  split_and!.
  - intros a. split.
    + intros [a' Ha]. by apply data_setter_Ok in Ha as [? _].
    + intros Hv. exists a. by apply data_setter_Ok.
  - intros a. split.
    + intros [a' Ha]. by apply fiducial_setter_Ok in Ha as [? _].
    + intros Hv. exists a. by apply fiducial_setter_Ok.
  - intros a. split.
    + intros [a' Ha]. by apply noise_setter_Ok in Ha as [? _].
    + intros Hv. exists a. by apply noise_setter_Ok.
  - intros a. split.
    + intros [a' Ha]. by apply covariance_setter_Ok in Ha as [? _].
    + intros Hv. exists a. by apply covariance_setter_Ok.
  - intros a Hv. unfold data_setter, fiducial_setter, noise_setter, valid_tensor in *.
    destruct (decide (ndim a = 4)); [|by auto].
    destruct (isnan_any a); [by auto|]. by destruct Hv.
  - intros a Hv. unfold covariance_setter, valid_covariance in *.
    destruct (decide (ndim a = 2)); [|by auto].
    destruct (decide (shape a !! 0 = shape a !! 1)); [|by auto].
    destruct (isnan_any a); [by auto|]. by destruct Hv.
  - intros cls d f n c bg fg s Hd Hf Hn Hc Hm Hs.
    exists (constructed cls d f n c bg fg s). split.
    + apply fit_init_Ok. by split_and!.
    + destruct bg, fg; by split_and!.
Qed.

(** ** The ensemble sampler *)

(** C5, where the code departs from it: through [run] the defaults of
    [run_emcee] are never used; an options dictionary without ['nwalker']
    makes the ensemble-sampler path raise [KeyError('nwalker')] right after
    the active set is recomputed, before any sampler is built. *)
Theorem run_emcee_without_nwalker (kwargs : gmap string Z) (w : W) :
  _solver (this w) = "emcee" →
  kwargs !! "nwalker" = None →
  run kwargs w =
    (Raise (KeyError "nwalker"),
     World (with_activelist (active_parameters (this w)) (this w)) (trace w) (ext w)).
Proof.
  intros Hsolver Hkw. rewrite run_dispatch.
  unfold dispatch, get_this, mbind, Py_bind. simpl. rewrite Hsolver. simpl.
  unfold run_emcee, lift, getitem, mbind, Py_bind. rewrite Hkw. reflexivity.
Qed.

(** ** The nested sampler *)

Lemma for_acc_app {A S} (l1 l2 : list A) (body : A → S → result S) (acc : S) :
  for_acc (l1 ++ l2) body acc = for_acc l1 body acc ≫= for_acc l2 body.
Proof.
  revert acc. induction l1 as [|x l1 IH]; intros acc; simpl; [done|].
  destruct (body x acc) as [acc'|]; simpl; [apply IH|done].
Qed.

Lemma remapped_step (pr : gmap string (float * float)) (names : list string)
    (n : nat) (name : string) (r : float * float) (row : list float) :
  names !! n = Some name →
  pr !! name = Some r →
  alter (λ x, umap x r) n
    (imap (λ i x, if decide (i < n) then column_map pr names i x else x) row)
  = imap (λ i x, if decide (i < S n) then column_map pr names i x else x) row.
Proof.
  intros Hname Hr. apply list_eq. intros i.
  destruct (decide (i = n)) as [->|Hne].
  - rewrite list_lookup_alter, decide_True by done. rewrite !list_lookup_imap.
    destruct (row !! n) as [x|]; simpl; [|done].
    rewrite decide_False by lia. rewrite decide_True by lia.
    unfold column_map. by rewrite Hname, Hr.
  - rewrite list_lookup_alter_ne by done. rewrite !list_lookup_imap.
    destruct (row !! i) as [x|]; simpl; [|done].
    destruct (decide (i < n)); [rewrite decide_True by lia|rewrite decide_False by lia];
      done.
Qed.

Lemma remap_prefix (self : fitobj) (names : list string) (a : array2) :
  (∀ name, name ∈ names → is_Some (_paramrange self !! name)) →
  ∀ n, (n ≤ length names)%nat → (n ≤ ncols a)%nat →
    for_acc (seq 0 n) (λ i a,
      name ← index names i;
      r ← getitem (_paramrange self) name;
      column_update i (λ x, umap x r) a) a
    = Ok (remapped (_paramrange self) names n a).
Proof.
  intros Hpr. induction n as [|n IH]; intros Hn Hc.
  - simpl. unfold remapped. destruct a as [k rs]. simpl. f_equal. f_equal.
    rewrite <- (list_fmap_id rs) at 1. apply list_fmap_ext. intros j row _.
    apply list_eq. intros i. rewrite list_lookup_imap. unfold id.
    by destruct (row !! i).
  - rewrite seq_S, for_acc_app, IH by lia. simpl.
    destruct (lookup_lt_is_Some_2 names n) as [name Hname]; [lia|].
    destruct (Hpr name) as [r Hr]; [by eapply list_elem_of_lookup_2|].
    unfold index, getitem. rewrite Hname. simpl. rewrite Hr. simpl.
    unfold column_update, remapped. simpl. rewrite ?decide_True by lia.
    unfold mbind, result_bind.
    f_equal. f_equal. rewrite <- list_fmap_compose.
    apply list_fmap_ext. intros j row _. simpl.
    by apply (remapped_step _ _ _ name r).
Qed.

Lemma remapped_all (pr : gmap string (float * float)) (names : list string)
    (a : array2) :
  remapped pr names (length names) a
  = Array2 (ncols a) (imap (column_map pr names) <$> rows a).
Proof.
  unfold remapped. f_equal. apply list_fmap_ext. intros j row _.
  apply list_eq. intros i. rewrite !list_lookup_imap.
  destruct (row !! i) as [x|]; simpl; [|done].
  destruct (decide (i < length names)) as [|Hge]; [done|].
  unfold column_map. rewrite (lookup_ge_None_2 names i) by lia. done.
Qed.

Lemma remap_columns_Ok (self : fitobj) (names : list string) (a : array2) :
  (length names ≤ ncols a)%nat →
  (∀ name, name ∈ names → is_Some (_paramrange self !! name)) →
  remap_columns self names a
  = Ok (Array2 (ncols a) (imap (column_map (_paramrange self) names) <$> rows a)).
Proof.
  intros Hc Hpr. unfold remap_columns.
  rewrite (remap_prefix self names a Hpr (length names)) by lia.
  by rewrite remapped_all.
Qed.

(** C6: [run_dynesty] builds the dynamic nested sampler from
    [_core_likelihood] and the prior transform [prior], which is the
    identity on every cube; of the result object the sampler hands back it
    changes the sample matrix only, mapping column [i] with [umap] and the
    range of the i-th sorted active name, and returns every other field as
    the sampler left it. *)
Theorem run_dynesty_remaps_samples_only (kwargs : gmap string Z) (w w1 : W)
    (solver : nested) :
  (self ← get_this;
   s ← DynamicNestedSampler _core_likelihood prior (size (_activelist self));
   run_nested s kwargs) w = (Ok solver, w1) →
  (length (sorted (_activelist (this w1))) ≤ ncols (samples (get_results solver)))%nat →
  (∀ name, name ∈ _activelist (this w1) → is_Some (_paramrange (this w1) !! name)) →
  run_dynesty kwargs w =
    (Ok (DynestyResult
           (Results
              (Array2 (ncols (samples (get_results solver)))
                 (imap (column_map (_paramrange (this w1))
                                   (sorted (_activelist (this w1))))
                    <$> rows (samples (get_results solver))))
              (others (get_results solver)))),
     w1)
  ∧ (∀ cube, prior cube = cube)
  ∧ (∀ i name r x,
       sorted (_activelist (this w1)) !! i = Some name →
       _paramrange (this w1) !! name = Some r →
       column_map (_paramrange (this w1)) (sorted (_activelist (this w1))) i x
       = umap x r)
  ∧ (∀ i x,
       sorted (_activelist (this w1)) !! i = None →
       column_map (_paramrange (this w1)) (sorted (_activelist (this w1))) i x = x).
Proof.
  intros Hrun Hcols Hpr. split_and!.
  - unfold run_dynesty. unfold mbind, Py_bind, get_this in *. simpl in *.
    destruct (DynamicNestedSampler _core_likelihood prior
                (size (_activelist (this w))) w) as [[s|e] w'] eqn:Es; [|done].
    rewrite Hrun. unfold lift.
    rewrite remap_columns_Ok; [done|done|].
    intros name Hname. apply Hpr. by apply sorted_names.
  - done.
  - intros i name r x Hname Hr. unfold column_map. by rewrite Hname, Hr.
  - intros i x Hname. unfold column_map. by rewrite Hname.
Qed.

End Properties.

(** * The theorems on the concrete instance *)

Lemma core_in_cube_witness :
  Forall in_unit [0.5%float; 0.25%float]
  ∧ physical_values (_paramrange (this Toy.w_two)) (sorted (_activelist (this Toy.w_two)))
      [0.5%float; 0.25%float] = Ok [("a", 5%float); ("r", 0.25%float)]
  ∧ (∀ form,
       evaluated form [("a", 5%float); ("r", 0.25%float)] Toy.w_two
         (entry_point form [0.5%float; 0.25%float] Toy.w_two))
  ∧ (_core_likelihood [0.5%float; 0.25%float] Toy.w_two).1 = Ok (-36.125)%float
  ∧ (_core_lsq [0.5%float; 0.25%float] Toy.w_two).1 = Ok 72.25%float
  ∧ Toy.m_params <$> _foreground (this (_core_likelihood [0.5%float; 0.25%float]
                                          Toy.w_two).2)
    = Some {[ "a" := 5%float ]}
  ∧ Toy.m_params <$> _background (this (_core_likelihood [0.5%float; 0.25%float]
                                          Toy.w_two).2)
    = Some {[ "a" := 5%float; "r" := 0.25%float ]}
  ∧ trace (_core_likelihood [0.5%float; 0.25%float] Toy.w_two).2
    = [FgReset {[ "a" := 5%float ]}; BgReset {[ "a" := 5%float ]};
       FgReset {[ "r" := 0.25%float ]}; BgReset {[ "r" := 0.25%float ]};
       FgBandpower; BgBandpower; Loglikeli (Toy.tensor 10)].
Proof.
  assert (Forall in_unit [0.5%float; 0.25%float]) as Hcube.
  { repeat (constructor; [split; reflexivity|]). constructor. }
  assert (physical_values (_paramrange (this Toy.w_two))
            (sorted (_activelist (this Toy.w_two))) [0.5%float; 0.25%float]
          = Ok [("a", 5%float); ("r", 0.25%float)]) as Hval.
  { vm_compute. reflexivity. }
  split; [exact Hcube|]. split; [exact Hval|].
  destruct (core_in_cube [0.5%float; 0.25%float] Toy.w_two
              [("a", 5%float); ("r", 0.25%float)] Hcube Hval)
    as (Hll & Hlsq & _ & _ & _ & _ & Hev).
  split; [exact Hev|].
  destruct (Hev LogLikelihood) as ((Hfg & Hbg & _) & _). simpl in Hfg, Hbg.
  split; [rewrite Hll; vm_compute; reflexivity|].
  split; [rewrite Hlsq; vm_compute; reflexivity|].
  split; [rewrite Hfg; vm_compute; reflexivity|].
  split; [rewrite Hbg; vm_compute; reflexivity|].
  rewrite Hll. vm_compute. reflexivity.
Defined.

Lemma core_off_cube_sentinel_witness :
  Exists off_unit [0.5%float; 1.5%float]
  ∧ _core_likelihood [0.5%float; 1.5%float] Toy.w0
    = (Ok (Np.nan_to_num (- Np.inf)%float), Toy.w0)
  ∧ _core_lsq [0.5%float; 1.5%float] Toy.w0 = (Ok (Np.nan_to_num Np.inf), Toy.w0).
Proof.
  assert (Exists off_unit [0.5%float; 1.5%float]) as Hoff.
  { right. left. left. reflexivity. }
  split; [exact Hoff|].
  destruct (core_off_cube_sentinel [0.5%float; 1.5%float] Toy.w0 Hoff)
    as (Hll & Hlsq & _).
  split; [exact Hll|exact Hlsq].
Defined.

Lemma loglikeli_is_minus_half_lsq_witness :
  shape (Toy.tensor 5) = shape (_data Toy.self)
  ∧ statistic Toy.self (Toy.tensor 5) = Ok 12.25%float
  ∧ Np.isnan 12.25%float = false
  ∧ Np.isnan (-0.5 * 12.25)%float = false
  ∧ ∃ c l, lsq Toy.self (Toy.tensor 5) = Ok c
           ∧ loglikeli Toy.self (Toy.tensor 5) = Ok l
           ∧ c = 12.25%float
           ∧ l = (-0.5 * c)%float.
Proof.
  split; [reflexivity|]. split; [vm_compute; reflexivity|].
  split; [reflexivity|]. split; [reflexivity|].
  apply (loglikeli_is_minus_half_lsq Toy.self (Toy.tensor 5) 12.25%float);
    [reflexivity|vm_compute; reflexivity|reflexivity|reflexivity].
Defined.

Lemma statistic_failures_and_clamp_witness :
  _class Toy.self ≠ basefit
  ∧ (shape (Toy.row [1%float; 2%float]) ≠ shape (_data Toy.self) →
       loglikeli Toy.self (Toy.row [1%float; 2%float]) = Raise AssertionError
       ∧ lsq Toy.self (Toy.row [1%float; 2%float]) = Raise AssertionError).
Proof.
  assert (_class Toy.self ≠ basefit) as Hcls by discriminate.
  split; [exact Hcls|].
  exact (proj1 (statistic_failures_and_clamp Toy.self (Toy.row [1%float; 2%float]) Hcls)).
Defined.

Lemma run_emcee_without_nwalker_witness :
  _solver (this Toy.w_emcee) = "emcee"
  ∧ (∅ : gmap string Z) !! "nwalker" = None
  ∧ run ∅ Toy.w_emcee =
      (Raise (KeyError "nwalker"),
       World (with_activelist (active_parameters (this Toy.w_emcee)) (this Toy.w_emcee))
             (trace Toy.w_emcee) (ext Toy.w_emcee)).
Proof.
  split; [reflexivity|]. split; [reflexivity|].
  apply run_emcee_without_nwalker; reflexivity.
Defined.

Lemma run_dynesty_remaps_samples_only_witness :
  (self ← get_this;
   s ← DynamicNestedSampler _core_likelihood prior (size (_activelist self));
   run_nested s ∅) Toy.w0
  = (Ok (_core_likelihood : list float → Py Toy.W float), Toy.w1)
  ∧ (length (sorted (_activelist (this Toy.w1))) ≤ 1)%nat
  ∧ (∀ name, name ∈ _activelist (this Toy.w1) →
       is_Some (_paramrange (this Toy.w1) !! name))
  ∧ run_dynesty ∅ Toy.w0 =
      (Ok (DynestyResult
             (Results (Array2 1 [[2.5%float]; [7.5%float]]) 42%Z)),
       Toy.w1).
Proof.
  assert ((self ← get_this;
           s ← DynamicNestedSampler _core_likelihood prior (size (_activelist self));
           run_nested s ∅) Toy.w0
          = (Ok (_core_likelihood : list float → Py Toy.W float), Toy.w1)) as Hrun.
  { reflexivity. }
  assert (length (sorted (_activelist (this Toy.w1))) ≤ 1)%nat as Hcols.
  { vm_compute. lia. }
  assert (∀ name, name ∈ _activelist (this Toy.w1) →
            is_Some (_paramrange (this Toy.w1) !! name)) as Hpr.
  { intros name Hname.
    assert (name = "a") as ->.
    { change (_activelist (this Toy.w1)) with ({[ "a" ]} : gset string) in Hname.
      by apply elem_of_singleton in Hname. }
    vm_compute. eauto. }
  split; [exact Hrun|]. split; [exact Hcols|]. split; [exact Hpr|].
  destruct (run_dynesty_remaps_samples_only (Engines0:=Toy.engines) ∅ Toy.w0 Toy.w1
              (_core_likelihood : list float → Py Toy.W float) Hrun Hcols Hpr)
    as (Hres & _).
  rewrite Hres. vm_compute. reflexivity.
Defined.

(** C8, refuted as stated: data of shape (1,1,1,2), a fiducial of shape
    (1,1,1,3), noise of shape (1,1,1,5) and a 7x7 covariance are accepted
    by the constructor. *)
Lemma inconsistent_shapes_accepted :
  shape (Toy.row [1%float; 2%float]) ≠ shape (Toy.row [1%float; 2%float; 3%float])
  ∧ shape (Toy.row [1%float; 2%float])
    ≠ shape (Toy.row [0%float; 0%float; 0%float; 0%float; 0%float])
  ∧ gaussfit_init (Toy.row [1%float; 2%float]) (Toy.row [1%float; 2%float; 3%float])
      (Toy.row [0%float; 0%float; 0%float; 0%float; 0%float]) (Toy.ones 7)
      None (Some Toy.fg) "dynesty"
    = Ok (constructed gaussfit
            (Toy.row [1%float; 2%float]) (Toy.row [1%float; 2%float; 3%float])
            (Toy.row [0%float; 0%float; 0%float; 0%float; 0%float]) (Toy.ones 7)
            None (Some Toy.fg) "dynesty").
Proof.
  split; [discriminate|]. split; [discriminate|]. vm_compute. reflexivity.
Qed.

(** ** Concrete runs *)

Example nan_in_residual_raises :
  loglikeli Toy.self (Toy.tensor nan) = Raise (ValueError "encounter nan")
  ∧ lsq Toy.self (Toy.tensor nan) = Raise (ValueError "encounter nan").
Proof. split; vm_compute; reflexivity. Qed.

Example singular_covariance_is_clamped :
  residual Toy.singular (Toy.tensor 1.5) = Ok [0%float]
  ∧ loglikeli Toy.singular (Toy.tensor 1.5) = Ok (- Np.float_max)%float
  ∧ lsq Toy.singular (Toy.tensor 1.5) = Ok Np.float_max.
Proof. repeat split; vm_compute; reflexivity. Qed.

Example run_emcee_with_explicit_defaults :
  (run run_emcee_default Toy.w_emcee).1
  = Ok (EmceeResult (Array2 1 [[5%float]])).
Proof. vm_compute. reflexivity. Qed.

Example sorted_by_code_point :
  sorted {[ "b"; "a"; "B"; "ab" ]} = ["B"; "a"; "ab"; "b"].
Proof. vm_compute. reflexivity. Qed.

(** * Further properties of the file *)

Section MoreProperties.

Context {FG BG Ext : Type}.
Context `{!ModelAdapter FG} `{!ModelAdapter BG} `{!Aux} `{!Numpy}.
Context `{!Engines (world FG BG Ext)}.

Abbreviation fitobj := (fit FG BG).
Abbreviation W := (world FG BG Ext).

(** ** [rerange] *)

Lemma rerange_frame_refl (self : fitobj) : rerange_frame self self.
Proof. by repeat split. Qed.

Lemma rerange_frame_trans (a b c : fitobj) :
  rerange_frame a b → rerange_frame b c → rerange_frame a c.
Proof.
  intros (?&?&?&?&?&?&?&?&?&?&?) (?&?&?&?&?&?&?&?&?&?&?).
  repeat split; congruence.
Qed.

Lemma rerange_item_frame (name : string) (value : pyvalue) (self : fitobj) :
  rerange_frame self (rerange_item name value self).2.
Proof.
  unfold rerange_item.
  destruct (decide (name ∈ dom (_paramrange self))) as [Hin|];
    [|apply rerange_frame_refl].
  destruct value as [[|low [|high [|]]]|]; try apply rerange_frame_refl.
  simpl. repeat split; simpl; try reflexivity.
  unfold dict_update. rewrite dom_union_L, dom_singleton_L.
  apply leibniz_equiv. intros x. rewrite elem_of_union, elem_of_singleton.
  split; [intros [->|]; done|by right].
Qed.

Lemma rerange_item_other (name name' : string) (value : pyvalue) (self : fitobj) :
  name' ≠ name →
  _paramrange (rerange_item name value self).2 !! name' = _paramrange self !! name'.
Proof.
  intros Hne. unfold rerange_item.
  destruct (decide (name ∈ dom (_paramrange self))); [|done].
  destruct value as [[|low [|high [|]]]|]; try done.
  simpl. unfold dict_update. rewrite lookup_union_r; [done|].
  by rewrite lookup_singleton_ne.
Qed.

Lemma rerange_other (pdict : list (string * pyvalue)) :
  ∀ (self : fitobj) (name : string),
    name ∉ pdict.*1 →
    _paramrange (rerange pdict self).2 !! name = _paramrange self !! name.
Proof.
  induction pdict as [|[n v] rest IH]; intros self name Hnot; [done|].
  simpl in *. apply not_elem_of_cons in Hnot as [Hne Hrest].
  pose proof (rerange_item_other n name v self Hne) as Hitem.
  destruct (rerange_item n v self) as [[[]|e] self']; simpl in *.
  - by rewrite IH.
  - done.
Qed.

(** X2: [rerange] changes nothing but the values of [_paramrange]: its keys,
    the merged parameters, the tensors, the active set, the models, the
    solver name and the class are the same afterwards, also when an
    assertion fails on the way. *)
Theorem rerange_keeps_frame (pdict : list (string * pyvalue)) (self : fitobj) :
  rerange_frame self (rerange pdict self).2.
Proof.
  revert self. induction pdict as [|[n v] rest IH]; intros self;
    [apply rerange_frame_refl|].
  simpl. pose proof (rerange_item_frame n v self) as Hitem.
  destruct (rerange_item n v self) as [[[]|e] self']; simpl in *; [|done].
  by eapply rerange_frame_trans.
Qed.

(** X1: names that are no keys of the range dictionary are skipped, whatever
    their values are: if no name of [pdict] is a key, [rerange] succeeds and
    leaves the object as it was. *)
Theorem rerange_unknown_names_ignored (pdict : list (string * pyvalue))
    (self : fitobj) :
  (∀ name, name ∈ pdict.*1 → name ∉ dom (_paramrange self)) →
  rerange pdict self = (Ok tt, self).
Proof.
  induction pdict as [|[n v] rest IH]; intros Hun; [done|].
  simpl. unfold rerange_item.
  rewrite decide_False by (apply Hun; simpl; left).
  apply IH. intros name Hname. apply Hun. simpl. by right.
Qed.

Lemma rerange_item_Ok (name : string) (value : pyvalue) (self : fitobj) :
  (rerange_item name value self).1 = Ok tt ↔
    (name ∈ dom (_paramrange self) → is_pair value).
Proof.
  unfold rerange_item, is_pair.
  destruct (decide (name ∈ dom (_paramrange self))) as [Hin|Hout]; [|done].
  destruct value as [[|low [|high [|]]]|]; simpl; split; try done;
    try (intros Hp; destruct (Hp Hin) as (? & ? & ?); done).
  intros _ _. by eexists _, _.
Qed.

(** X4: [rerange] succeeds exactly when every name of [pdict] that is a key
    of the range dictionary comes with a list or tuple of length two;
    otherwise (a key with another kind of object, or with a list or tuple
    of another length) it fails on an assertion. *)
Theorem rerange_succeeds_iff (pdict : list (string * pyvalue)) (self : fitobj) :
  ((rerange pdict self).1 = Ok tt ↔
     ∀ name value, (name, value) ∈ pdict →
       name ∈ dom (_paramrange self) → is_pair value)
  ∧ ((rerange pdict self).1 = Ok tt ∨ (rerange pdict self).1 = Raise AssertionError).
Proof.
  revert self. induction pdict as [|[n v] rest IH]; intros self.
  - split; [|by left]. split; [|done]. intros _ name value Hin.
    by apply elem_of_nil in Hin.
  - simpl. pose proof (rerange_item_Ok n v self) as Hitem.
    pose proof (rerange_item_frame n v self) as (Hdom & _).
    assert ((rerange_item n v self).1 = Ok tt
            ∨ (rerange_item n v self).1 = Raise AssertionError) as Hkind.
    { unfold rerange_item. destruct (decide _); [|by left].
      destruct v as [[|low [|high [|]]]|]; simpl; auto. }
    destruct (rerange_item n v self) as [[[]|e] self'] eqn:E; simpl in *.
    + destruct (IH self') as [IHiff IHkind]. split; [|done].
      rewrite IHiff. rewrite Hdom. split.
      * intros Hrest name value Hin. apply elem_of_cons in Hin as [Heq|Hin].
        -- simplify_eq. by apply Hitem.
        -- by apply Hrest.
      * intros Hall name value Hin. apply Hall. by right.
    + split; [|by destruct Hkind as [?|?]; [done|right]].
      split; [done|]. intros Hall.
      assert (Raise e = Ok tt) as Habs; [|done].
      apply Hitem. apply Hall. by left.
Qed.

(** X3: after a successful [rerange] on a dictionary (its keys are
    distinct), a key of the range dictionary that [pdict] gives as
    [[low, high]] has the range [(low, high)], and a name that [pdict] does
    not mention has the range it had. *)
Theorem rerange_lookup (pdict : list (string * pyvalue)) (self : fitobj) :
  NoDup pdict.*1 →
  (rerange pdict self).1 = Ok tt →
  (∀ name low high,
     (name, PySequence [low; high]) ∈ pdict → name ∈ dom (_paramrange self) →
     _paramrange (rerange pdict self).2 !! name = Some (low, high))
  ∧ (∀ name, name ∉ pdict.*1 →
       _paramrange (rerange pdict self).2 !! name = _paramrange self !! name).
Proof.
  intros Hnd Hok. split; [|intros name; apply rerange_other].
  revert self Hnd Hok. induction pdict as [|[n v] rest IH];
    intros self Hnd Hok name low high Hin Hkey.
  - by apply elem_of_nil in Hin.
  - simpl in *. apply NoDup_cons in Hnd as [Hn Hnd].
    pose proof (rerange_item_frame n v self) as (Hdom & _).
    destruct (rerange_item n v self) as [[[]|e] self'] eqn:E; simpl in *; [|done].
    apply elem_of_cons in Hin as [Heq|Hin].
    + simplify_eq. rewrite rerange_other by done.
      unfold rerange_item in E. rewrite decide_True in E by done.
      simplify_eq. simpl. unfold dict_update.
      apply lookup_union_Some_l. apply lookup_singleton_eq.
    + apply IH; [done|done|done|]. by rewrite Hdom.
Qed.

(** ** The objective beyond the unit cube and beyond complete lookups *)

Lemma guard_passes (cube : list float) :
  Forall (λ c, ¬ off_unit c) cube → Np.any_gt cube 1 || Np.any_lt cube 0 = false.
Proof.
  intros Hall. apply orb_false_iff.
  split; apply not_true_is_false; intros Hex;
    apply existsb_exists in Hex as (c & Hin & Hc);
    apply list_elem_of_In in Hin;
    rewrite Forall_forall in Hall; apply (Hall c Hin); [by left|by right].
Qed.

Lemma nan_not_off_unit (c : float) : is_nan c = true → ¬ off_unit c.
Proof.
  intros Hnan. apply is_nan_spec in Hnan.
  intros [Hgt|Hlt]; rewrite ltb_spec in *; unfold SFltb in *.
  - rewrite Hnan in Hgt. by destruct (Prim2SF 1).
  - by rewrite Hnan in Hlt.
Qed.

Lemma in_unit_not_off_unit (c : float) : in_unit c → ¬ off_unit c.
Proof.
  intros [Hlo Hhi] [Hgt|Hlt].
  - apply float_leb_not_ltb in Hhi. congruence.
  - apply float_leb_not_ltb in Hlo. congruence.
Qed.

(** The loop of the objective in general: it stops at the first missing cube
    coordinate or range, with the models reset for the names before it. *)
Lemma reset_loop_general (name_list : list string) (full : list float) :
  ∀ (names : list string) (cube : list float) (k : nat) (w : W),
    (∀ j, names !! j = name_list !! (k + j)) →
    (∀ j, cube !! j = full !! (k + j)) →
    for_each (seq k (length names)) (reset_step name_list full) w
    = (physical_values (_paramrange (this w)) names cube ≫= λ _, Ok tt,
       foldl push_parameter w (physical_prefix (_paramrange (this w)) names cube)).
Proof.
  induction names as [|name names IH]; intros cube k w Hnames Hcube; [done|].
  assert (name_list !! k = Some name) as Hk.
  { specialize (Hnames 0). simpl in Hnames. by rewrite Nat.add_0_r in Hnames. }
  destruct cube as [|c cube].
  - assert (full !! k = None) as Hc.
    { specialize (Hcube 0). simpl in Hcube. by rewrite Nat.add_0_r in Hcube. }
    simpl. unfold mbind at 1, Py_bind. unfold reset_step, index, lift.
    unfold mbind, Py_bind. by rewrite Hk, Hc.
  - assert (full !! k = Some c) as Hc.
    { specialize (Hcube 0). simpl in Hcube. by rewrite Nat.add_0_r in Hcube. }
    simpl. destruct (_paramrange (this w) !! name) as [r|] eqn:Hr.
    + unfold mbind at 1, Py_bind.
      rewrite (reset_step_push name_list full k w name c r) by done.
      rewrite (IH cube (S k)).
      * rewrite push_parameter_paramrange. unfold getitem. rewrite Hr. simpl.
        by destruct (physical_values (_paramrange (this w)) names cube).
      * intros j. specialize (Hnames (S j)). simpl in Hnames.
        rewrite Hnames. f_equal. lia.
      * intros j. specialize (Hcube (S j)). simpl in Hcube.
        rewrite Hcube. f_equal. lia.
    + unfold mbind at 1, Py_bind. unfold reset_step, index, lift, getitem, get_this.
      unfold mbind, Py_bind. rewrite Hk, Hc. simpl. by rewrite Hr.
Qed.

Lemma physical_prefix_Ok (pr : gmap string (float * float)) :
  ∀ (names : list string) (cube : list float) (values : list (string * float)),
    physical_values pr names cube = Ok values →
    physical_prefix pr names cube = values.
Proof.
  induction names as [|name names IH]; intros cube values Hval.
  - simpl in Hval. by simplify_eq.
  - destruct cube as [|c cube]; [done|]. simpl in *. unfold getitem in Hval.
    destruct (pr !! name) as [r|]; [|done]. simpl in Hval.
    destruct (physical_values pr names cube) as [rest|] eqn:Hrest; [|done].
    simpl in Hval. simplify_eq. f_equal. by apply IH.
Qed.

Lemma aborted_push (e : exn) (values : list (string * float)) (w : W) :
  aborted e values w (Raise e, foldl push_parameter w values).
Proof.
  destruct (push_all_reset values w) as [Hm Ht]. by split_and!.
Qed.

(** X5: when no coordinate is greater than 1 or less than 0 and a cube
    coordinate or a declared range is missing for some active name, both
    entry points raise the error of the first such name in sorted order
    ([IndexError] for the coordinate, [KeyError(name)] for the range); the
    models have been reset for the names before it, and no band-power is
    asked for and no statistic evaluated.  The last conjunct reads this off
    the outcome: the exception, the models in the final state, every other
    field, and the calls made (the resets and nothing after them). *)
Theorem core_aborts_at_first_missing (cube : list float) (w : W) (e : exn) :
  Forall (λ c, ¬ off_unit c) cube →
  physical_values (_paramrange (this w)) (sorted (_activelist (this w))) cube
    = Raise e →
  let reached :=
    foldl push_parameter w
      (physical_prefix (_paramrange (this w)) (sorted (_activelist (this w))) cube) in
  _core_likelihood cube w = (Raise e, reached)
  ∧ _core_lsq cube w = (Raise e, reached)
  ∧ (e = IndexError ∨ ∃ name, e = KeyError name
                              ∧ name ∈ _activelist (this w)
                              ∧ _paramrange (this w) !! name = None)
  ∧ (∀ form,
       aborted e
         (physical_prefix (_paramrange (this w)) (sorted (_activelist (this w))) cube)
         w (entry_point form cube w)).
Proof.
  intros Hcube Hval reached.
  pose proof (guard_passes cube Hcube) as Hguard.
  pose proof (reset_loop_general (sorted (_activelist (this w))) cube
                (sorted (_activelist (this w))) cube 0 w
                (λ j, eq_refl) (λ j, eq_refl)) as Hloop.
  rewrite Hval in Hloop. simpl in Hloop. split_and!.
  - rewrite _core_likelihood_steps, Hguard.
    unfold mbind, Py_bind, get_this. by rewrite Hloop.
  - rewrite _core_lsq_steps, Hguard.
    unfold mbind, Py_bind, get_this. by rewrite Hloop.
  - clear Hloop Hguard Hcube reached.
    assert (∀ name, name ∈ sorted (_activelist (this w)) →
                    name ∈ _activelist (this w)) as Hmem.
    { intros name. apply sorted_names. }
    revert cube Hval Hmem.
    generalize (sorted (_activelist (this w))) as names.
    induction names as [|name names IH]; intros cube Hval Hmem; [done|].
    destruct cube as [|c cube]; simpl in Hval; [left; congruence|].
    unfold getitem in Hval.
    destruct (_paramrange (this w) !! name) as [r|] eqn:Hr; simpl in Hval.
    + destruct (physical_values (_paramrange (this w)) names cube) eqn:Hrest;
        simpl in Hval; [done|].
      apply (IH cube); [congruence|]. intros n Hn. apply Hmem. by right.
    + right. exists name. split_and!; [congruence| |done]. apply Hmem. by left.
  - intros [|]; simpl;
      [rewrite _core_likelihood_steps|rewrite _core_lsq_steps];
      rewrite Hguard; unfold mbind, Py_bind, get_this; rewrite Hloop;
      apply aborted_push.
Qed.

(** X6: a cube shorter than the number of active names, all of whose names
    have a declared range, makes both entry points raise [IndexError] after
    the models were reset for the first [len(cube)] names; the last conjunct
    reads the exception, the models, the other fields and the calls off the
    outcome. *)
Theorem core_short_cube (cube : list float) (w : W) :
  Forall (λ c, ¬ off_unit c) cube →
  (length cube < length (sorted (_activelist (this w))))%nat →
  (∀ name, name ∈ _activelist (this w) → is_Some (_paramrange (this w) !! name)) →
  ∃ values,
    physical_values (_paramrange (this w))
      (take (length cube) (sorted (_activelist (this w)))) cube = Ok values
    ∧ length values = length cube
    ∧ _core_likelihood cube w = (Raise IndexError, foldl push_parameter w values)
    ∧ _core_lsq cube w = (Raise IndexError, foldl push_parameter w values)
    ∧ (∀ form, aborted IndexError values w (entry_point form cube w)).
Proof.
  intros Hcube Hlen Hpr.
  pose proof (guard_passes cube Hcube) as Hguard.
  pose proof (reset_loop_general (sorted (_activelist (this w))) cube
                (sorted (_activelist (this w))) cube 0 w
                (λ j, eq_refl) (λ j, eq_refl)) as Hloop.
  assert (∀ name, name ∈ sorted (_activelist (this w)) →
                  is_Some (_paramrange (this w) !! name)) as Hpr'.
  { intros name Hname. apply Hpr. by apply sorted_names. }
  clear Hpr.
  assert (∃ values,
    physical_values (_paramrange (this w))
      (take (length cube) (sorted (_activelist (this w)))) cube = Ok values
    ∧ length values = length cube
    ∧ physical_values (_paramrange (this w)) (sorted (_activelist (this w))) cube
      = Raise IndexError
    ∧ physical_prefix (_paramrange (this w)) (sorted (_activelist (this w))) cube
      = values) as (values & Hv & Hl & Hraise & Hprefix).
  { revert Hlen Hpr'. clear.
    generalize (sorted (_activelist (this w))) as names.
    generalize (_paramrange (this w)) as pr.
    intros pr names. revert cube.
    induction names as [|name names IH]; intros cube Hlen Hpr;
      [simpl in Hlen; lia|].
    destruct cube as [|c cube]; [by exists []|].
    simpl in Hlen. destruct (Hpr name) as [r Hr]; [by left|].
    destruct (IH cube) as (values & Hv & Hl & Hraise & Hprefix);
      [lia|intros n Hn; apply Hpr; by right|].
    exists ((name, umap c r) :: values). simpl. unfold getitem. rewrite Hr. simpl.
    rewrite Hv, Hraise, Hprefix. simpl. by rewrite Hl. }
  exists values. rewrite Hraise, Hprefix in Hloop. simpl in Hloop.
  split_and!; [done|done| | |].
  - rewrite _core_likelihood_steps, Hguard.
    unfold mbind, Py_bind, get_this. by rewrite Hloop.
  - rewrite _core_lsq_steps, Hguard.
    unfold mbind, Py_bind, get_this. by rewrite Hloop.
  - intros [|]; simpl;
      [rewrite _core_likelihood_steps|rewrite _core_lsq_steps];
      rewrite Hguard; unfold mbind, Py_bind, get_this; rewrite Hloop;
      apply aborted_push.
Qed.

(** X7: the guard lets a NaN coordinate through: on a cube whose coordinates
    are each in [0,1] or NaN, both entry points reset the models (a NaN
    coordinate is handed to [umap] like any other) and evaluate the
    statistic, as on a cube point; the last conjunct reads the reset models,
    the calls made and the returned value off the outcome. *)
Theorem core_evaluates_nan_coordinates (cube : list float) (w : W)
    (values : list (string * float)) :
  Forall (λ c, in_unit c ∨ is_nan c = true) cube →
  physical_values (_paramrange (this w)) (sorted (_activelist (this w))) cube
    = Ok values →
  _core_likelihood cube w = objective LogLikelihood values w
  ∧ _core_lsq cube w = objective ChiSquare values w
  ∧ (∀ form, evaluated form values w (entry_point form cube w)).
Proof.
  intros Hcube Hval.
  assert (Forall (λ c, ¬ off_unit c) cube) as Hcube'.
  { eapply Forall_impl; [exact Hcube|]. intros c [Hc|Hc];
      [by apply in_unit_not_off_unit|by apply nan_not_off_unit]. }
  pose proof (guard_passes cube Hcube') as Hguard.
  pose proof (reset_loop_general (sorted (_activelist (this w))) cube
                (sorted (_activelist (this w))) cube 0 w
                (λ j, eq_refl) (λ j, eq_refl)) as Hloop.
  rewrite Hval, (physical_prefix_Ok _ _ _ _ Hval) in Hloop. simpl in Hloop.
  assert (_core_likelihood cube w = objective LogLikelihood values w) as Hll.
  { rewrite _core_likelihood_steps, Hguard.
    unfold mbind, Py_bind, get_this. rewrite Hloop.
    apply predict_step_loglikeli. }
  assert (_core_lsq cube w = objective ChiSquare values w) as Hlsq.
  { rewrite _core_lsq_steps, Hguard.
    unfold mbind, Py_bind, get_this. rewrite Hloop.
    apply predict_step_lsq. }
  split_and!; [exact Hll|exact Hlsq|].
  intros [|]; simpl; [rewrite Hll|rewrite Hlsq]; apply objective_evaluated.
Qed.

(** ** What an evaluation leaves alone *)

Lemma frame_kept_refl (w : W) : frame_kept w w.
Proof. by repeat split. Qed.

Lemma frame_kept_trans (a b c : W) :
  frame_kept a b → frame_kept b c → frame_kept a c.
Proof.
  intros (?&?&?&?&?&?&?&?&?&?&Hf&Hb&Ht) (?&?&?&?&?&?&?&?&?&?&Hf'&Hb'&Ht').
  repeat split; try congruence; try tauto. by etrans.
Qed.

Lemma keeps_frame_ret {A} (a : A) : keeps_frame (mret a : Py W A).
Proof. intros w. apply frame_kept_refl. Qed.

Lemma keeps_frame_lift {A} (r : result A) : keeps_frame (lift r : Py W A).
Proof. intros w. apply frame_kept_refl. Qed.

Lemma keeps_frame_bind {A B} (m : Py W A) (f : A → Py W B) :
  keeps_frame m → (∀ a, keeps_frame (f a)) → keeps_frame (m ≫= f).
Proof.
  intros Hm Hf w. unfold mbind, Py_bind. specialize (Hm w).
  destruct (m w) as [[a|e] w']; simpl in *; [|done].
  eapply frame_kept_trans; [exact Hm|apply Hf].
Qed.

Lemma keeps_frame_for_each {A} (l : list A) (body : A → Py W unit) :
  (∀ x, keeps_frame (body x)) → keeps_frame (for_each l body).
Proof.
  intros Hbody. induction l as [|x l IH]; simpl; [apply keeps_frame_ret|].
  apply keeps_frame_bind; [apply Hbody|by intros _].
Qed.

Lemma keeps_frame_get_this : keeps_frame (get_this : Py W fitobj).
Proof. intros w. apply frame_kept_refl. Qed.

Lemma keeps_frame_fg_reset (delta : gmap string float) :
  keeps_frame (fg_reset delta : Py W unit).
Proof.
  intros w. unfold fg_reset.
  destruct (_foreground (this w)) as [m|] eqn:E; [|apply frame_kept_refl].
  unfold frame_kept. simpl. rewrite E.
  split_and!; try done; try (split; intros _; by eexists).
  by apply prefix_app_r.
Qed.

Lemma keeps_frame_bg_reset (delta : gmap string float) :
  keeps_frame (bg_reset delta : Py W unit).
Proof.
  intros w. unfold bg_reset.
  destruct (_background (this w)) as [m|] eqn:E; [|apply frame_kept_refl].
  unfold frame_kept. simpl. rewrite E.
  split_and!; try done; try (split; intros _; by eexists).
  by apply prefix_app_r.
Qed.

Lemma keeps_frame_fg_bandpower : keeps_frame (fg_bandpower : Py W ndarray).
Proof.
  intros w. unfold fg_bandpower.
  destruct (_foreground (this w)) as [m|] eqn:E; [|apply frame_kept_refl].
  simpl. repeat split; simpl; try done. by apply prefix_app_r.
Qed.

Lemma keeps_frame_bg_bandpower : keeps_frame (bg_bandpower : Py W ndarray).
Proof.
  intros w. unfold bg_bandpower.
  destruct (_background (this w)) as [m|] eqn:E; [|apply frame_kept_refl].
  simpl. repeat split; simpl; try done. by apply prefix_app_r.
Qed.

Lemma keeps_frame_call_loglikeli (p : ndarray) :
  keeps_frame (call_loglikeli p : Py W float).
Proof. intros w. repeat split; simpl; try done. by apply prefix_app_r. Qed.

Lemma keeps_frame_call_lsq (p : ndarray) : keeps_frame (call_lsq p : Py W float).
Proof. intros w. repeat split; simpl; try done. by apply prefix_app_r. Qed.

Lemma keeps_frame_reset_step (names : list string) (cube : list float) (i : nat) :
  keeps_frame (reset_step names cube i : Py W unit).
Proof.
  unfold reset_step.
  repeat (apply keeps_frame_bind; [|intros ?]);
    auto using keeps_frame_lift, keeps_frame_get_this, keeps_frame_fg_reset,
      keeps_frame_bg_reset.
Qed.

Lemma keeps_frame_predict_step (method : Py W (ndarray → Py W float)) :
  keeps_frame method →
  (∀ (w : W) (f : ndarray → Py W float),
     (method w).1 = Ok f → ∀ p, keeps_frame (f p)) →
  keeps_frame (predict_step method).
Proof.
  intros Hm Hf. unfold predict_step. intros w.
  unfold mbind at 1, Py_bind. unfold get_this at 1.
  assert (∀ (k : (ndarray → Py W float) → Py W float),
            (∀ f, (∀ p, keeps_frame (f p)) → keeps_frame (k f)) →
            frame_kept w ((method ≫= k) w).2) as Hbind.
  { intros k Hk. unfold mbind, Py_bind. pose proof (Hm w) as Hmw.
    destruct (method w) as [[f|e] w'] eqn:E; simpl in *; [|done].
    eapply frame_kept_trans; [exact Hmw|]. apply Hk.
    apply (Hf w). by rewrite E. }
  destruct (_foreground (this w)), (_background (this w)); apply Hbind;
    intros meth Hfp;
    repeat (apply keeps_frame_bind; [|intros ?]);
    auto using keeps_frame_lift, keeps_frame_fg_bandpower, keeps_frame_bg_bandpower.
Qed.

Lemma keeps_frame_loglikeli_method :
  keeps_frame (loglikeli_method : Py W (ndarray → Py W float))
  ∧ ∀ (w : W) (f : ndarray → Py W float),
      (loglikeli_method w).1 = Ok f → ∀ p, keeps_frame (f p).
Proof.
  split.
  - intros w. unfold loglikeli_method. destruct (_class (this w));
      apply frame_kept_refl.
  - intros w f. unfold loglikeli_method.
    destruct (_class (this w)); simpl; intros Hf; simplify_eq;
      apply keeps_frame_call_loglikeli.
Qed.

Lemma keeps_frame_lsq_method :
  keeps_frame (lsq_method : Py W (ndarray → Py W float))
  ∧ ∀ (w : W) (f : ndarray → Py W float),
      (lsq_method w).1 = Ok f → ∀ p, keeps_frame (f p).
Proof.
  split.
  - intros w. unfold lsq_method. destruct (_class (this w));
      apply frame_kept_refl.
  - intros w f. unfold lsq_method.
    destruct (_class (this w)); simpl; intros Hf; simplify_eq;
      apply keeps_frame_call_lsq.
Qed.

(** X8: on every cube and from every state, whether it returns or raises, an
    evaluation of [_core_likelihood] or [_core_lsq] leaves the tensors, the
    merged parameters and ranges, the active set, the solver name, the class
    and the outside state as they were, keeps attached models attached and
    absent ones absent, and only appends to the calls made: it changes the
    parameters held inside the models and nothing else. *)
Theorem core_keeps_frame (cube : list float) (w : W) :
  frame_kept w (_core_likelihood cube w).2
  ∧ frame_kept w (_core_lsq cube w).2.
Proof.
  destruct keeps_frame_loglikeli_method as [Hl1 Hl2].
  destruct keeps_frame_lsq_method as [Hq1 Hq2].
  split.
  - rewrite _core_likelihood_steps.
    destruct (Np.any_gt cube 1 || Np.any_lt cube 0); [apply frame_kept_refl|].
    revert w. apply keeps_frame_bind; [apply keeps_frame_get_this|]. intros self.
    apply keeps_frame_bind.
    + apply keeps_frame_for_each. intros i. apply keeps_frame_reset_step.
    + intros _. by apply keeps_frame_predict_step.
  - rewrite _core_lsq_steps.
    destruct (Np.any_gt cube 1 || Np.any_lt cube 0); [apply frame_kept_refl|].
    revert w. apply keeps_frame_bind; [apply keeps_frame_get_this|]. intros self.
    apply keeps_frame_bind.
    + apply keeps_frame_for_each. intros i. apply keeps_frame_reset_step.
    + intros _. by apply keeps_frame_predict_step.
Qed.

(** ** What the statistics and the objective return *)

Lemma clamp_not_nan (x sentinel : float) :
  Np.isnan sentinel = false →
  Np.isnan (if Np.isnan x then sentinel else x) = false.
Proof. intros Hs. by destruct (Np.isnan x) eqn:E. Qed.

Lemma statistics_not_nan (self : fitobj) (predicted : ndarray) (x : float) :
  (loglikeli self predicted = Ok x → Np.isnan x = false)
  ∧ (lsq self predicted = Ok x → Np.isnan x = false).
Proof.
  rewrite loglikeli_statistic, lsq_statistic.
  destruct (statistic self predicted) as [chi|]; simpl; [|done].
  split; intros Hx; simplify_eq; by apply clamp_not_nan.
Qed.

(** X9: neither statistic and neither entry point ever returns NaN: a value
    returned by [loglikeli], [lsq], [_core_likelihood] or [_core_lsq] is not
    NaN, on every input and from every state. *)
Theorem objective_never_nan (self : fitobj) (predicted : ndarray) (cube : list float)
    (w : W) (x : float) :
  (loglikeli self predicted = Ok x → Np.isnan x = false)
  ∧ (lsq self predicted = Ok x → Np.isnan x = false)
  ∧ ((_core_likelihood cube w).1 = Ok x → Np.isnan x = false)
  ∧ ((_core_lsq cube w).1 = Ok x → Np.isnan x = false).
Proof.
  split; [apply statistics_not_nan|]. split; [apply statistics_not_nan|]. split.
  - rewrite _core_likelihood_steps.
    destruct (Np.any_gt cube 1 || Np.any_lt cube 0).
    { simpl. intros Hx. by simplify_eq. }
    unfold mbind, Py_bind, get_this.
    destruct (for_each _ _ w) as [[[]|e] w']; simpl; [|done].
    rewrite predict_step_loglikeli. unfold predict_and_evaluate.
    destruct (_class (this w')); simpl; try done;
      destruct (prediction _ _); simpl; try done; apply statistics_not_nan.
  - rewrite _core_lsq_steps.
    destruct (Np.any_gt cube 1 || Np.any_lt cube 0).
    { simpl. intros Hx. by simplify_eq. }
    unfold mbind, Py_bind, get_this.
    destruct (for_each _ _ w) as [[[]|e] w']; simpl; [|done].
    rewrite predict_step_lsq. unfold predict_and_evaluate.
    destruct (_class (this w')); simpl; try done;
      destruct (prediction _ _); simpl; try done; apply statistics_not_nan.
Qed.

(** X10: the two forms fail alike: on every object and every predicted
    tensor, [lsq] raises an exception exactly when [loglikeli] raises it,
    and it is the same exception. *)
Theorem statistics_fail_alike (self : fitobj) (predicted : ndarray) (e : exn) :
  lsq self predicted = Raise e ↔ loglikeli self predicted = Raise e.
Proof.
  rewrite loglikeli_statistic, lsq_statistic.
  by destruct (statistic self predicted) as [chi|].
Qed.

(** ** Construction, continued *)

Lemma zeros_like_not_nan (a : ndarray) (dt : np_dtype) :
  isnan_any (zeros_like a dt) = false.
Proof.
  unfold isnan_any, zeros_like, Np.any_isnan. simpl.
  induction (length (flat a)) as [|n IH]; [done|]. simpl. exact IH.
Qed.

(** X11: leaving the offset out is the same as passing a [float32] all-zero
    offset of the noise tensor's shape: [hlfit] builds the same object, or
    fails in the same way, on every input; and the offset stored by default
    has the shape and the size of the noise tensor, the dtype [float32],
    and every entry zero. *)
Theorem hlfit_default_offset (d f n c : ndarray) (bg : option BG) (fg : option FG)
    (s : string) :
  hlfit_init d f n c bg fg s None
  = hlfit_init d f n c bg fg s (Some (NdArray (shape n)
                                        (replicate (length (flat n)) 0%float)
                                        float32))
  ∧ (∀ self, hlfit_init d f n c bg fg s None = Ok self →
       ∃ o, _class self = hlfit o
            ∧ shape o = shape n
            ∧ dtype o = float32
            ∧ length (flat o) = length (flat n)
            ∧ Forall (λ x, x = 0%float) (flat o)).
Proof.
  change (NdArray (shape n) (replicate (length (flat n)) 0%float) float32)
    with (zeros_like n float32).
  split.
  - unfold hlfit_init.
    destruct (fit_init (hlfit (zeros_like n float32)) d f n c bg fg s)
      as [self|] eqn:E; simpl; [|done].
    destruct (proj1 (fit_init_Ok _ _ _ _ _ _ _ _ _) E) as (_&_&_&_&_&_&->).
    rewrite constructed_noise. unfold offset_setter.
    rewrite decide_True by done. by rewrite zeros_like_not_nan.
  - intros self Hinit.
    destruct (proj1 (hlfit_init_Ok _ _ _ _ _ _ _ _ _) Hinit)
      as (_&_&_&_&_&_&_&->).
    exists (zeros_like n float32). simpl. split_and!; try done.
    + apply length_replicate.
    + apply Forall_forall. intros x Hx. by apply elem_of_replicate in Hx as [? _].
Qed.

(** X12: an offset handed to [hlfit] is checked when the object is built:
    with arguments that are otherwise valid, an offset whose shape differs
    from the noise tensor's fails the assertion, and an offset of the right
    shape that holds a NaN raises [ValueError('encounter nan')]. *)
Theorem hlfit_offset_checked (d f n c o : ndarray) (bg : option BG) (fg : option FG)
    (s : string) :
  valid_tensor d → valid_tensor f → valid_tensor n → valid_covariance c →
  is_Some bg ∨ is_Some fg → valid_solver s →
  (shape o ≠ shape n →
     hlfit_init d f n c bg fg s (Some o) = Raise AssertionError)
  ∧ (shape o = shape n → isnan_any o = true →
       hlfit_init d f n c bg fg s (Some o) = Raise (ValueError "encounter nan")).
Proof.
  intros Hd Hf Hn Hc Hm Hs. unfold hlfit_init.
  rewrite (proj2 (fit_init_Ok (hlfit (zeros_like n float32)) d f n c bg fg s _)
             (conj Hd (conj Hf (conj Hn (conj Hc (conj Hm (conj Hs eq_refl))))))).
  unfold mbind, result_bind. lazy beta iota.
  rewrite constructed_noise. unfold offset_setter.
  split; [intros Hshape|intros Hshape Hnan];
    destruct (decide (shape o = shape n)); try done.
  by rewrite Hnan.
Qed.


(** X14: an object the constructor built holds the parameters and ranges of
    its models merged, with the foreground model written last: a name the
    foreground declares has the foreground's value, a name only the
    background declares has the background's, and no other name is present;
    the active set is empty until the first [run]. *)
Theorem constructed_merges_models (cls : variant) (d f n c : ndarray)
    (bg : option BG) (fg : option FG) (s : string) (self : fitobj) :
  fit_init cls d f n c bg fg s = Ok self →
  _params self = from_option params ∅ fg ∪ from_option params ∅ bg
  ∧ _paramrange self = from_option paramrange ∅ fg ∪ from_option paramrange ∅ bg
  ∧ _activelist self = ∅
  ∧ _foreground self = fg ∧ _background self = bg
  ∧ (∀ name, _params self !! name =
       match from_option params ∅ fg !! name with
       | Some v => Some v
       | None => from_option params ∅ bg !! name
       end).
Proof.
  intros Hinit.
  destruct (proj1 (fit_init_Ok _ _ _ _ _ _ _ _ _) Hinit) as (_&_&_&_&_&_&->).
  assert (_params (constructed cls d f n c bg fg s)
          = from_option params ∅ fg ∪ from_option params ∅ bg) as Hp.
  { destruct bg, fg; simpl; unfold dict_update;
      by rewrite ?(right_id_L ∅ (∪)), ?(left_id_L ∅ (∪)). }
  split_and!.
  - exact Hp.
  - destruct bg, fg; simpl; unfold dict_update;
      by rewrite ?(right_id_L ∅ (∪)), ?(left_id_L ∅ (∪)).
  - by destruct bg, fg.
  - by destruct bg, fg.
  - by destruct bg, fg.
  - intros name. rewrite Hp. rewrite lookup_union.
    destruct (from_option params ∅ fg !! name) as [v|] eqn:E; simpl.
    + by destruct (from_option params ∅ bg !! name).
    + by rewrite (left_id_L None union).
Qed.

(** ** The model setters, continued *)

(** X15: attaching a model writes its entries over the merged dictionaries:
    afterwards every name the model declares has the model's value and
    range (a range set earlier by [rerange] is lost), and every other name
    keeps what it had. *)
Theorem setter_overwrites (self : fitobj) (name : string) :
  (∀ m : FG,
     _params (foreground_setter (Some m) self) !! name
       = match params m !! name with
         | Some v => Some v | None => _params self !! name end
     ∧ _paramrange (foreground_setter (Some m) self) !! name
       = match paramrange m !! name with
         | Some r => Some r | None => _paramrange self !! name end)
  ∧ (∀ m : BG,
     _params (background_setter (Some m) self) !! name
       = match params m !! name with
         | Some v => Some v | None => _params self !! name end
     ∧ _paramrange (background_setter (Some m) self) !! name
       = match paramrange m !! name with
         | Some r => Some r | None => _paramrange self !! name end).
Proof.
  assert (∀ {V} (a b : gmap string V),
            (a ∪ b) !! name = match a !! name with Some v => Some v | None => b !! name end)
    as Hun.
  { intros V a b. rewrite lookup_union. destruct (a !! name) eqn:E; simpl.
    - by destruct (b !! name).
    - by rewrite (left_id_L None union). }
  split; intros m; simpl; unfold dict_update; by rewrite !Hun.
Qed.

(** ** Cube indices *)

Lemma StronglySorted_lookup_lt {A} (R : relation A) (l : list A) :
  StronglySorted R l →
  ∀ i j a b, (i < j)%nat → l !! i = Some a → l !! j = Some b → R a b.
Proof.
  induction 1 as [|x l Hl IH Hx]; intros i j a b Hlt Hi Hj; [done|].
  destruct j as [|j]; [lia|]. simpl in Hj. destruct i as [|i]; simpl in Hi.
  - simplify_eq. rewrite Forall_forall in Hx. apply Hx.
    by eapply list_elem_of_lookup_2.
  - apply (IH i j); [lia|done|done].
Qed.

(** X16: the sorted name list gives every active parameter exactly one cube
    index: it is as long as the active set (the dimension handed to the
    samplers and to the optimiser), it holds each active name at one index
    and nothing else, and names at increasing indices increase strictly. *)
Theorem sorted_indexes_active_names (act : gset string) :
  length (sorted act) = size act
  ∧ (∀ name, name ∈ act ↔ ∃ i, sorted act !! i = Some name)
  ∧ (∀ i j name, sorted act !! i = Some name → sorted act !! j = Some name → i = j)
  ∧ (∀ i j a b, (i < j)%nat → sorted act !! i = Some a → sorted act !! j = Some b →
       String.le a b ∧ a ≠ b).
Proof.
  destruct (sorted_names act) as (Hsorted & Hnd & Hmem). split_and!.
  - unfold sorted. rewrite merge_sort_Permutation. reflexivity.
  - intros name. rewrite <- Hmem. apply list_elem_of_lookup.
  - intros i j name Hi Hj. by eapply NoDup_lookup.
  - intros i j a b Hlt Hi Hj. split.
    + by eapply (StronglySorted_lookup_lt String.le (sorted act) Hsorted i j).
    + intros ->. assert (i = j) by by eapply NoDup_lookup. lia.
Qed.

(** ** Mapping solver output to physical units *)

Lemma remap_prefix_inv (self : fitobj) (names : list string) (a : array2) :
  ∀ n a', (n ≤ length names)%nat →
    for_acc (seq 0 n) (λ i a,
      name ← index names i;
      r ← getitem (_paramrange self) name;
      column_update i (λ x, umap x r) a) a = Ok a' →
    (n ≤ ncols a)%nat
    ∧ (∀ i name, (i < n)%nat → names !! i = Some name →
         is_Some (_paramrange self !! name))
    ∧ a' = remapped (_paramrange self) names n a.
Proof.
  induction n as [|n IH]; intros a' Hn Hrun.
  - split; [lia|]. split; [intros; lia|].
    assert (a' = a) as -> by (simpl in Hrun; congruence).
    unfold remapped. destruct a as [k rs]. simpl. f_equal.
    rewrite <- (list_fmap_id rs) at 1. apply list_fmap_ext. intros j row _.
    apply list_eq. intros i. rewrite list_lookup_imap. unfold id.
    by destruct (row !! i).
  - rewrite seq_S, for_acc_app in Hrun. simpl in Hrun.
    destruct (for_acc (seq 0 n) _ a) as [acc|] eqn:Eacc; simpl in Hrun; [|done].
    destruct (IH acc) as (Hc & Hpr & ->); [lia|done|].
    destruct (lookup_lt_is_Some_2 names n) as [name Hname]; [lia|].
    unfold index in Hrun. rewrite Hname in Hrun. simpl in Hrun.
    unfold getitem in Hrun.
    destruct (_paramrange self !! name) as [r|] eqn:Hr; simpl in Hrun; [|done].
    unfold column_update in Hrun. simpl in Hrun.
    destruct (decide (n < ncols a)) as [Hlt|]; simpl in Hrun; [|done].
    simplify_eq. split; [lia|]. split.
    + intros i name' Hi Hname'. destruct (decide (i = n)) as [->|].
      * simplify_eq. by eexists.
      * apply (Hpr i); [lia|done].
    + unfold remapped. simpl. f_equal. rewrite <- list_fmap_compose.
      apply list_fmap_ext. intros j row _. simpl.
      by apply (remapped_step _ _ _ name r).
Qed.

(** X17: the loop that maps a sample matrix to physical units succeeds
    exactly when the matrix has a column for every name and every name has
    a declared range; and then it returns a matrix of the same shape, with
    entry [i] of every row mapped by [umap] with the range of the i-th name
    and the entries of further columns unchanged. *)
Theorem remap_columns_succeeds_iff (self : fitobj) (names : list string) (a : array2) :
  (is_Ok (remap_columns self names a) ↔
     (length names ≤ ncols a)%nat
     ∧ ∀ name, name ∈ names → is_Some (_paramrange self !! name))
  ∧ (∀ a', remap_columns self names a = Ok a' →
       a' = Array2 (ncols a) (imap (column_map (_paramrange self) names) <$> rows a)
       ∧ ncols a' = ncols a
       ∧ length (rows a') = length (rows a)
       ∧ ∀ j row, rows a !! j = Some row →
           ∃ row', rows a' !! j = Some row' ∧ length row' = length row).
Proof.
  assert (∀ a', remap_columns self names a = Ok a' →
            (length names ≤ ncols a)%nat
            ∧ (∀ name, name ∈ names → is_Some (_paramrange self !! name))
            ∧ a' = Array2 (ncols a)
                     (imap (column_map (_paramrange self) names) <$> rows a)) as Hinv.
  { intros a' Hrun. unfold remap_columns in Hrun.
    destruct (remap_prefix_inv self names a (length names) a') as (Hc & Hpr & ->);
      [lia|done|].
    split; [done|]. split; [|apply remapped_all].
    intros name Hin. apply list_elem_of_lookup in Hin as [i Hi].
    apply (Hpr i); [by eapply lookup_lt_Some|done]. }
  split.
  - split.
    + intros [a' Hrun]. destruct (Hinv a' Hrun) as (? & ? & _). done.
    + intros [Hc Hpr]. eexists. by apply remap_columns_Ok.
  - intros a' Hrun. destruct (Hinv a' Hrun) as (_ & _ & ->).
    split; [done|]. split; [done|]. simpl. split; [by rewrite length_fmap|].
    intros j row Hrow. exists (imap (column_map (_paramrange self) names) row).
    split; [by rewrite list_lookup_fmap, Hrow|apply length_imap].
Qed.

Lemma remap_best_err_prefix (self : fitobj) (names : list string)
    (best err : list float) :
  (∀ name, name ∈ names → is_Some (_paramrange self !! name)) →
  ∀ n, (n ≤ length names)%nat → (n ≤ length best)%nat → (n ≤ length err)%nat →
    for_acc (seq 0 n) (λ i be,
      name ← index names i;
      r ← getitem (_paramrange self) name;
      best ← item_update i (λ x, umap x r) be.1;
      err ← item_update i (λ x, umap x r) be.2;
      Ok (best, err)) (best, err)
    = Ok (imap (λ i x, if decide (i < n)
                       then column_map (_paramrange self) names i x else x) best,
          imap (λ i x, if decide (i < n)
                       then column_map (_paramrange self) names i x else x) err).
Proof.
  intros Hpr. induction n as [|n IH]; intros Hn Hb He.
  - simpl. f_equal. f_equal; apply list_eq; intros i; rewrite list_lookup_imap;
      by destruct (_ !! i).
  - rewrite seq_S, for_acc_app, IH by lia. simpl.
    destruct (lookup_lt_is_Some_2 names n) as [name Hname]; [lia|].
    destruct (Hpr name) as [r Hr]; [by eapply list_elem_of_lookup_2|].
    unfold index, getitem. rewrite Hname. simpl. rewrite Hr. simpl.
    unfold item_update. rewrite !length_imap.
    rewrite !decide_True by lia. simpl.
    by rewrite !(remapped_step _ _ _ name r).
Qed.

Lemma imap_column_map_all (pr : gmap string (float * float)) (names : list string)
    (v : list float) :
  imap (λ i x, if decide (i < length names) then column_map pr names i x else x) v
  = imap (column_map pr names) v.
Proof.
  apply list_eq. intros i. rewrite !list_lookup_imap.
  destruct (v !! i) as [x|]; simpl; [|done].
  destruct (decide (i < length names)) as [|Hge]; [done|].
  unfold column_map. by rewrite (lookup_ge_None_2 names i) by lia.
Qed.

(** X18: [run_minuit] minimises [_core_lsq] from the middle of the cube
    within the bounds (0,1), takes the best fit after [migrad] and the
    errors after [minos], and returns both mapped entry by entry with
    [umap] and the range of the i-th sorted active name: the errors go
    through the same map as the best-fit values. *)
Theorem run_minuit_remaps_best_and_errors (kwargs : gmap string Z) (w w1 w2 : W)
    (s1 s2 : minuit) :
  minuit_migrad w = (Ok s1, w1) →
  minos s1 w1 = (Ok s2, w2) →
  (length (sorted (_activelist (this w2))) ≤ length (minuit_values s1))%nat →
  (length (sorted (_activelist (this w2))) ≤ length (minuit_errors s2))%nat →
  (∀ name, name ∈ _activelist (this w2) → is_Some (_paramrange (this w2) !! name)) →
  run_minuit kwargs w =
    (Ok (MinuitResult
           (imap (column_map (_paramrange (this w2)) (sorted (_activelist (this w2))))
                 (minuit_values s1))
           (imap (column_map (_paramrange (this w2)) (sorted (_activelist (this w2))))
                 (minuit_errors s2))),
     w2).
Proof.
  intros Hmigrad Hminos Hb He Hpr.
  unfold run_minuit, minuit_migrad in *. unfold mbind, Py_bind, get_this in *.
  simpl in *.
  destruct (Minuit _core_lsq _ _ w) as [[s0|e0] w0]; [|done].
  rewrite Hmigrad, Hminos. unfold lift, remap_best_err.
  rewrite (remap_best_err_prefix (this w2) _ _ _) by
    (try lia; intros name Hname; apply Hpr; by apply sorted_names).
  simpl. by rewrite !imap_column_map_all.
Qed.

Lemma run_emcee_sample (kwargs : gmap string Z) (w : W) :
  run_emcee kwargs w =
    (chain ← emcee_sample kwargs;
     self ← get_this;
     chain ← lift (remap_columns self (sorted (_activelist self)) chain);
     mret (EmceeResult chain)) w.
Proof.
  unfold run_emcee, emcee_sample. unfold mbind, Py_bind.
  repeat (case_match; simplify_eq; try reflexivity; try congruence).
Qed.

(** X19: [run_emcee] returns the chain it retrieves from the sampler with
    column [i] mapped by [umap] and the range of the i-th sorted active
    name, and leaves the state as the sampling left it. *)
Theorem run_emcee_remaps_chain (kwargs : gmap string Z) (w w1 : W) (chain : array2) :
  emcee_sample kwargs w = (Ok chain, w1) →
  (length (sorted (_activelist (this w1))) ≤ ncols chain)%nat →
  (∀ name, name ∈ _activelist (this w1) → is_Some (_paramrange (this w1) !! name)) →
  run_emcee kwargs w =
    (Ok (EmceeResult
           (Array2 (ncols chain)
              (imap (column_map (_paramrange (this w1))
                                (sorted (_activelist (this w1))))
                 <$> rows chain))),
     w1).
Proof.
  intros Hsample Hcols Hpr. rewrite run_emcee_sample.
  unfold mbind at 1, Py_bind at 1. rewrite Hsample.
  unfold mbind, Py_bind, get_this, lift.
  rewrite remap_columns_Ok; [done|done|].
  intros name Hname. apply Hpr. by apply sorted_names.
Qed.

End MoreProperties.

(** * The further properties on the concrete instance *)

Lemma rerange_unknown_names_ignored_witness :
  (∀ name, name ∈ [("zz", PyObject)].*1 → name ∉ dom (_paramrange Toy.self))
  ∧ rerange [("zz", PyObject)] Toy.self = (Ok tt, Toy.self).
Proof.
  assert (∀ name, name ∈ [("zz", PyObject)].*1 →
                  name ∉ dom (_paramrange Toy.self)) as Hun.
  { intros name Hin. apply list_elem_of_singleton in Hin as ->.
    intros Hdom. apply elem_of_dom in Hdom as [r Hr].
    vm_compute in Hr. discriminate. }
  split; [exact Hun|]. exact (rerange_unknown_names_ignored _ Toy.self Hun).
Defined.

Lemma rerange_lookup_witness :
  NoDup [("a", PySequence [2%float; 3%float])].*1
  ∧ (rerange [("a", PySequence [2%float; 3%float])] Toy.self).1 = Ok tt
  ∧ _paramrange (rerange [("a", PySequence [2%float; 3%float])] Toy.self).2 !! "a"
    = Some (2%float, 3%float).
Proof.
  assert (NoDup [("a", PySequence [2%float; 3%float])].*1) as Hnd by apply NoDup_singleton.
  assert ((rerange [("a", PySequence [2%float; 3%float])] Toy.self).1 = Ok tt) as Hok.
  { vm_compute. reflexivity. }
  split; [exact Hnd|]. split; [exact Hok|].
  apply (proj1 (rerange_lookup _ Toy.self Hnd Hok)).
  - apply list_elem_of_singleton. reflexivity.
  - apply elem_of_dom. vm_compute. eauto.
Defined.

Lemma core_aborts_at_first_missing_witness :
  Forall (λ c, ¬ off_unit c) [0.5%float; 0.5%float]
  ∧ physical_values (_paramrange (this Toy.w_both))
      (sorted (_activelist (this Toy.w_both))) [0.5%float; 0.5%float]
    = Raise (KeyError "r")
  ∧ (∀ form,
       aborted (KeyError "r")
         (physical_prefix (_paramrange (this Toy.w_both))
            (sorted (_activelist (this Toy.w_both))) [0.5%float; 0.5%float])
         Toy.w_both (entry_point form [0.5%float; 0.5%float] Toy.w_both))
  ∧ (_core_likelihood [0.5%float; 0.5%float] Toy.w_both).1 = Raise (KeyError "r")
  ∧ (_core_lsq [0.5%float; 0.5%float] Toy.w_both).1 = Raise (KeyError "r")
  ∧ Toy.m_params <$> _foreground (this (_core_likelihood [0.5%float; 0.5%float]
                                          Toy.w_both).2)
    = Some {[ "a" := 5%float ]}
  ∧ Toy.m_params <$> _background (this (_core_likelihood [0.5%float; 0.5%float]
                                          Toy.w_both).2)
    = Some {[ "a" := 5%float; "r" := 0%float ]}
  ∧ trace (_core_likelihood [0.5%float; 0.5%float] Toy.w_both).2
    = [FgReset {[ "a" := 5%float ]}; BgReset {[ "a" := 5%float ]}].
Proof.
  assert (¬ off_unit 0.5%float) as Hhalf.
  { intros [Hc|Hc]; vm_compute in Hc; discriminate. }
  assert (Forall (λ c, ¬ off_unit c) [0.5%float; 0.5%float]) as Hcube.
  { repeat constructor; exact Hhalf. }
  assert (physical_values (_paramrange (this Toy.w_both))
            (sorted (_activelist (this Toy.w_both))) [0.5%float; 0.5%float]
          = Raise (KeyError "r")) as Hval.
  { vm_compute. reflexivity. }
  split; [exact Hcube|]. split; [exact Hval|].
  destruct (core_aborts_at_first_missing _ Toy.w_both _ Hcube Hval)
    as (_ & _ & _ & Hab).
  split; [exact Hab|].
  destruct (Hab LogLikelihood) as (Hll & (Hfg & Hbg & _) & Htr).
  destruct (Hab ChiSquare) as (Hlsq & _).
  simpl in Hll, Hlsq, Hfg, Hbg, Htr.
  split; [exact Hll|]. split; [exact Hlsq|].
  split; [rewrite Hfg; vm_compute; reflexivity|].
  split; [rewrite Hbg; vm_compute; reflexivity|].
  rewrite Htr. vm_compute. reflexivity.
Defined.

Lemma core_short_cube_witness :
  Forall (λ c, ¬ off_unit c) [0.5%float]
  ∧ (length [0.5%float] < length (sorted (_activelist (this Toy.w_two))))%nat
  ∧ (∀ name, name ∈ _activelist (this Toy.w_two) →
       is_Some (_paramrange (this Toy.w_two) !! name))
  ∧ (_core_likelihood [0.5%float] Toy.w_two).1 = Raise IndexError
  ∧ (_core_lsq [0.5%float] Toy.w_two).1 = Raise IndexError
  ∧ Toy.m_params <$> _foreground (this (_core_likelihood [0.5%float] Toy.w_two).2)
    = Some {[ "a" := 5%float ]}
  ∧ Toy.m_params <$> _background (this (_core_likelihood [0.5%float] Toy.w_two).2)
    = Some {[ "a" := 5%float; "r" := 0%float ]}
  ∧ trace (_core_likelihood [0.5%float] Toy.w_two).2
    = [FgReset {[ "a" := 5%float ]}; BgReset {[ "a" := 5%float ]}].
Proof.
  assert (Forall (λ c, ¬ off_unit c) [0.5%float]) as Hcube.
  { repeat constructor. intros [Hc|Hc]; vm_compute in Hc; discriminate. }
  assert (length [0.5%float] < length (sorted (_activelist (this Toy.w_two))))%nat
    as Hlen.
  { vm_compute. lia. }
  assert (∀ name, name ∈ _activelist (this Toy.w_two) →
            is_Some (_paramrange (this Toy.w_two) !! name)) as Hpr.
  { intros name Hname.
    change (_activelist (this Toy.w_two)) with ({[ "a"; "r" ]} : gset string) in Hname.
    apply elem_of_union in Hname as [Hname|Hname];
      apply elem_of_singleton in Hname as ->; vm_compute; eauto. }
  split; [exact Hcube|]. split; [exact Hlen|]. split; [exact Hpr|].
  destruct (core_short_cube [0.5%float] Toy.w_two Hcube Hlen Hpr)
    as (values & Hval & _ & _ & _ & Hab).
  assert (values = [("a", 5%float)]) as ->.
  { vm_compute in Hval. congruence. }
  destruct (Hab LogLikelihood) as (Hll & (Hfg & Hbg & _) & Htr).
  destruct (Hab ChiSquare) as (Hlsq & _).
  simpl in Hll, Hlsq, Hfg, Hbg, Htr.
  split; [exact Hll|]. split; [exact Hlsq|].
  split; [rewrite Hfg; vm_compute; reflexivity|].
  split; [rewrite Hbg; vm_compute; reflexivity|].
  rewrite Htr. vm_compute. reflexivity.
Defined.

Lemma core_evaluates_nan_coordinates_witness :
  Forall (λ c, in_unit c ∨ is_nan c = true) [nan]
  ∧ physical_values (_paramrange (this Toy.w0)) (sorted (_activelist (this Toy.w0)))
      [nan] = Ok [("a", nan)]
  ∧ (∀ form, evaluated form [("a", nan)] Toy.w0 (entry_point form [nan] Toy.w0))
  ∧ (_core_likelihood [nan] Toy.w0).1 = Raise (ValueError "encounter nan")
  ∧ (_core_lsq [nan] Toy.w0).1 = Raise (ValueError "encounter nan")
  ∧ Toy.m_params <$> _foreground (this (_core_lsq [nan] Toy.w0).2)
    = Some {[ "a" := nan ]}
  ∧ trace (_core_lsq [nan] Toy.w0).2
    = [FgReset {[ "a" := nan ]}; FgBandpower; Lsq (Toy.tensor nan)].
Proof.
  assert (Forall (λ c, in_unit c ∨ is_nan c = true) [nan]) as Hcube.
  { constructor; [right; reflexivity|constructor]. }
  assert (physical_values (_paramrange (this Toy.w0))
            (sorted (_activelist (this Toy.w0))) [nan] = Ok [("a", nan)]) as Hval.
  { vm_compute. reflexivity. }
  split; [exact Hcube|]. split; [exact Hval|].
  destruct (core_evaluates_nan_coordinates [nan] Toy.w0 [("a", nan)] Hcube Hval)
    as (Hll & Hlsq & Hev).
  split; [exact Hev|].
  destruct (Hev ChiSquare) as ((Hfg & _) & _). simpl in Hfg.
  split; [rewrite Hll; vm_compute; reflexivity|].
  split; [rewrite Hlsq; vm_compute; reflexivity|].
  split; [rewrite Hfg; vm_compute; reflexivity|].
  rewrite Hlsq. vm_compute. reflexivity.
Defined.

Lemma hlfit_offset_checked_witness :
  valid_tensor (Toy.tensor 2) ∧ valid_tensor (Toy.tensor 1)
  ∧ valid_tensor (Toy.tensor 0.5) ∧ valid_covariance (Toy.matrix 1)
  ∧ (is_Some (@None Toy.model) ∨ is_Some (Some Toy.fg))
  ∧ valid_solver "dynesty"
  ∧ hlfit_init (Toy.tensor 2) (Toy.tensor 1) (Toy.tensor 0.5) (Toy.matrix 1)
      None (Some Toy.fg) "dynesty" (Some (Toy.row [1%float; 2%float]))
    = Raise AssertionError.
Proof.
  assert (valid_tensor (Toy.tensor 2)) as Hd by (split; vm_compute; reflexivity).
  assert (valid_tensor (Toy.tensor 1)) as Hf by (split; vm_compute; reflexivity).
  assert (valid_tensor (Toy.tensor 0.5)) as Hn by (split; vm_compute; reflexivity).
  assert (valid_covariance (Toy.matrix 1)) as Hc by (by repeat split).
  assert (is_Some (@None Toy.model) ∨ is_Some (Some Toy.fg)) as Hm
    by (right; by eexists).
  assert (valid_solver "dynesty") as Hs.
  { unfold valid_solver. rewrite !elem_of_cons. auto. }
  split; [exact Hd|]. split; [exact Hf|]. split; [exact Hn|].
  split; [exact Hc|]. split; [exact Hm|]. split; [exact Hs|].
  apply (proj1 (hlfit_offset_checked (Toy.tensor 2) (Toy.tensor 1) (Toy.tensor 0.5)
                  (Toy.matrix 1) (Toy.row [1%float; 2%float]) None (Some Toy.fg)
                  "dynesty" Hd Hf Hn Hc Hm Hs)).
  discriminate.
Defined.

Lemma constructed_merges_models_witness :
  fit_init gaussfit (Toy.tensor 2) (Toy.tensor 1) (Toy.tensor 0.5) (Toy.matrix 1)
    (Some Toy.bg) (Some Toy.fg') "dynesty"
  = Ok (constructed gaussfit (Toy.tensor 2) (Toy.tensor 1) (Toy.tensor 0.5)
          (Toy.matrix 1) (Some Toy.bg) (Some Toy.fg') "dynesty")
  ∧ _params (constructed gaussfit (Toy.tensor 2) (Toy.tensor 1) (Toy.tensor 0.5)
               (Toy.matrix 1) (Some Toy.bg) (Some Toy.fg') "dynesty")
    = from_option params ∅ (Some Toy.fg') ∪ from_option params ∅ (Some Toy.bg).
Proof.
  assert (fit_init gaussfit (Toy.tensor 2) (Toy.tensor 1) (Toy.tensor 0.5)
            (Toy.matrix 1) (Some Toy.bg) (Some Toy.fg') "dynesty"
          = Ok (constructed gaussfit (Toy.tensor 2) (Toy.tensor 1) (Toy.tensor 0.5)
                  (Toy.matrix 1) (Some Toy.bg) (Some Toy.fg') "dynesty")) as Hinit.
  { vm_compute. reflexivity. }
  split; [exact Hinit|].
  exact (proj1 (constructed_merges_models _ _ _ _ _ _ _ _ _ Hinit)).
Defined.

Lemma run_minuit_remaps_best_and_errors_witness :
  minuit_migrad Toy.w_minuit = (Ok Toy.at_middle, Toy.w_minuit)
  ∧ minos Toy.at_middle Toy.w_minuit
    = (Ok Toy.at_middle, Toy.w_minuit)
  ∧ run_minuit ∅ Toy.w_minuit
    = (Ok (MinuitResult [5%float] [5%float]), Toy.w_minuit).
Proof.
  assert (minuit_migrad Toy.w_minuit = (Ok Toy.at_middle, Toy.w_minuit))
    as Hmigrad by reflexivity.
  assert (minos Toy.at_middle Toy.w_minuit
          = (Ok Toy.at_middle, Toy.w_minuit)) as Hminos by reflexivity.
  split; [exact Hmigrad|]. split; [exact Hminos|].
  rewrite (run_minuit_remaps_best_and_errors (Engines0:=Toy.engines) ∅
             Toy.w_minuit Toy.w_minuit Toy.w_minuit
             Toy.at_middle Toy.at_middle Hmigrad Hminos).
  - vm_compute. reflexivity.
  - vm_compute. lia.
  - vm_compute. lia.
  - intros name Hname.
    assert (name = "a") as ->.
    { change (_activelist (this Toy.w_minuit)) with ({[ "a" ]} : gset string) in Hname.
      by apply elem_of_singleton in Hname. }
    vm_compute. eauto.
Defined.

Lemma run_emcee_remaps_chain_witness :
  emcee_sample run_emcee_default Toy.w_emcee
  = (Ok (Array2 1 [[0.5%float]]), Toy.w_emcee)
  ∧ run_emcee run_emcee_default Toy.w_emcee
    = (Ok (EmceeResult (Array2 1 [[5%float]])), Toy.w_emcee).
Proof.
  assert (emcee_sample run_emcee_default Toy.w_emcee
          = (Ok (Array2 1 [[0.5%float]]), Toy.w_emcee)) as Hsample.
  { vm_compute. reflexivity. }
  split; [exact Hsample|].
  rewrite (run_emcee_remaps_chain (Engines0:=Toy.engines) run_emcee_default
             Toy.w_emcee Toy.w_emcee (Array2 1 [[0.5%float]]) Hsample).
  - vm_compute. reflexivity.
  - vm_compute. lia.
  - intros name Hname.
    assert (name = "a") as ->.
    { change (_activelist (this Toy.w_emcee)) with ({[ "a" ]} : gset string) in Hname.
      by apply elem_of_singleton in Hname. }
    vm_compute. eauto.
Defined.

Lemma run_recomputes_activelist_witness :
  ∃ w' : Toy.W,
    run ∅ Toy.w_stale = dispatch ∅ w'
    ∧ _activelist (this Toy.w_stale) = {[ "zz"; "r" ]}
    ∧ _activelist (this w') = {[ "a" ]}
    ∧ _activelist (this (run ∅ Toy.w_stale).2) = {[ "a" ]}.
Proof.
  destruct (proj1 (run_recomputes_activelist ∅ Toy.w_stale))
    as (w' & Hrun & Hact & _).
  exists w'. split; [exact Hrun|]. split; [reflexivity|].
  split; [rewrite Hact; vm_compute; reflexivity|].
  vm_compute. reflexivity.
Defined.

Lemma setters_only_merge_witness :
  let self' := foreground_setter (Some Toy.fg')
                 (foreground_setter (Some Toy.fg) Toy.self) in
  ∃ w' : Toy.W,
    run ∅ (World self' [] tt) = dispatch ∅ w'
    ∧ "a" ∈ dom (params Toy.fg)
    ∧ "a" ∈ _activelist (this w')
    ∧ _activelist (this (run ∅ (World self' [] tt)).2) = {[ "a" ]}.
Proof.
  intros self'.
  destruct (proj1 (proj2 (proj2 (setters_only_merge Toy.self))) Toy.fg (Some Toy.fg'))
    as (_ & _ & Hrun).
  destruct (Hrun ∅ [] tt) as (w' & Hdispatch & _ & Hact).
  assert ("a" ∈ dom (params Toy.fg)) as Ha.
  { apply elem_of_dom. vm_compute. eauto. }
  exists w'. split; [exact Hdispatch|]. split; [exact Ha|]. split.
  - apply (Hact "a" Ha). split.
    + intros bg Hbg. discriminate.
    + intros fg Hfg. injection Hfg as <-. intros Hin. vm_compute in Hin.
      apply list_elem_of_singleton in Hin. discriminate.
  - vm_compute. reflexivity.
Defined.
